(** * ssg.py: a one-file static site generator

    A shallow embedding of [src/ssg.py] and the properties of its template
    pipeline: front-matter parsing, include expansion, variable substitution,
    layout inheritance, output paths, the sitemap, the build walk and the
    debounced watch handler.

    Python [str] values are sequences of Unicode code points; they are
    modelled as lists of code points ([N]).  The regular expressions of the
    source are transcribed into a small syntax tree and run by a backtracking
    matcher that follows the search order of Python's [re] module. *)

From Stdlib Require Import String Ascii NArith Floats.
From stdpp Require Import gmap list.

Set Default Proof Using "Type".

(** ** Text *)

Abbreviation char := N.
Abbreviation str := (list N).

(** [text] turns a literal of this file into the Python string with the
    same characters. *)
Definition text (s : string) : str :=
  List.map N_of_ascii (list_ascii_of_string s).
Arguments text s%_string.

Definition nl : char := 10%N.      (* the line feed *)
Definition dquote : char := 34%N.  (* the double quote *)
Definition squote : char := 39%N.  (* the single quote *)

(** [str.isspace] on one code point, which is also [\s] of [re] on [str]
    patterns: [Py_UNICODE_ISSPACE]. *)
Definition is_space (c : char) : bool :=
  ((9 <=? c) && (c <=? 13) || (28 <=? c) && (c <=? 32)
   || (c =? 133) || (c =? 160) || (c =? 5760)
   || (8192 <=? c) && (c <=? 8202)
   || (c =? 8232) || (c =? 8233) || (c =? 8239) || (c =? 8287)
   || (c =? 12288))%N.

(** The class of the two quote characters, written [[q]] below. *)
Definition is_quote (c : char) : bool := ((c =? dquote) || (c =? squote))%N.

(** [.] without [re.DOTALL]: anything but a newline. *)
Definition dot (c : char) : bool := negb (c =? nl)%N.

(** [.] under [re.DOTALL]. *)
Definition dot_all (_ : char) : bool := true.

(** [s.startswith(p)], returning what follows the prefix. *)
Fixpoint strip_prefix (p s : str) : option str :=
  match p, s with
  | [], _ => Some s
  | a :: p', c :: s' => if (a =? c)%N then strip_prefix p' s' else None
  | _ :: _, [] => None
  end.

Definition startswith (s p : str) : bool :=
  match strip_prefix p s with Some _ => true | None => false end.

(** [s.endswith(p)]. *)
Definition endswith (s p : str) : bool := startswith (rev s) (rev p).

(** [p in s] for strings. *)
Fixpoint contains (p s : str) : bool :=
  startswith s p ||
  match s with
  | [] => false
  | _ :: s' => contains p s'
  end.

(** [s.replace(old, new)] for a non-empty [old]: occurrences are replaced
    from left to right and do not overlap.  [skip] counts the characters of
    the occurrence just replaced that are still to be passed over. *)
Fixpoint replace_from (skip : nat) (old new s : str) : str :=
  match s with
  | [] => []
  | c :: s' =>
      match skip with
      | S n => replace_from n old new s'
      | O =>
          if startswith s old
          then new ++ replace_from (length old - 1) old new s'
          else c :: replace_from 0 old new s'
      end
  end.

Definition replace (s old new : str) : str := replace_from 0 old new s.

(** [sep.join(parts)]. *)
Fixpoint join (sep : str) (parts : list str) : str :=
  match parts with
  | [] => []
  | [p] => p
  | p :: ps => p ++ sep ++ join sep ps
  end.

(** [s.strip()]: whitespace removed at both ends. *)
Fixpoint lstrip (s : str) : str :=
  match s with
  | c :: s' => if is_space c then lstrip s' else s
  | [] => []
  end.
Definition rstrip (s : str) : str := rev (lstrip (rev s)).
Definition strip (s : str) : str := rstrip (lstrip s).

(** Line boundaries of [str.splitlines]. *)
Definition is_linebreak (c : char) : bool :=
  ((10 <=? c) && (c <=? 13) || (28 <=? c) && (c <=? 30)
   || (c =? 133) || (c =? 8232) || (c =? 8233))%N.

(** [s.splitlines()]: [cur] is the line being read, reversed.  A carriage
    return followed by a line feed is one boundary; a final boundary opens
    no empty last line. *)
Fixpoint splitlines_from (cur : str) (s : str) : list str :=
  match s with
  | [] => match cur with [] => [] | _ => [rev cur] end
  | c :: s' =>
      if is_linebreak c then
        rev cur ::
          (if (c =? 13)%N then
             match s' with
             | d :: s'' => if (d =? 10)%N then splitlines_from [] s''
                           else splitlines_from [] s'
             | [] => splitlines_from [] s'
             end
           else splitlines_from [] s')
      else splitlines_from (c :: cur) s'
  end.

Definition splitlines (s : str) : list str := splitlines_from [] s.

(** [line.split(':', 1)] when [':' in line]: the text before the first colon
    and the text after it; [None] when the line has no colon. *)
Fixpoint split_colon (s : str) : option (str * str) :=
  match s with
  | [] => None
  | c :: s' =>
      if (c =? 58)%N then Some ([], s')
      else match split_colon s' with
           | Some (k, v) => Some (c :: k, v)
           | None => None
           end
  end.

(** [s.rfind('.')]: index of the last dot. *)
Fixpoint rfind_dot (s : str) : option nat :=
  match s with
  | [] => None
  | c :: s' =>
      match rfind_dot s' with
      | Some i => Some (S i)
      | None => if (c =? 46)%N then Some 0 else None
      end
  end.

(** ** Regular expressions

    The three patterns of the source use literals, character classes,
    greedy and lazy repetition of a single class, capturing groups, one
    optional non-capturing group and the two anchors. *)

Inductive regex : Type :=
| Bol                                               (* ^ *)
| Eol                                               (* $ *)
| Lit (l : str)                                     (* literal text *)
| Cls (p : char -> bool)                            (* one character of a class *)
| Rep (greedy : bool) (lo : nat) (p : char -> bool) (* c*  c+  c*? *)
| Cat (r1 r2 : regex)
| Grp (i : nat) (r : regex)                         (* ( r ), group number i *)
| Opt (r : regex).                                  (* (?: r )? *)

Declare Scope regex_scope.
Delimit Scope regex_scope with re.
Bind Scope regex_scope with regex.
Infix "·" := Cat (at level 60, right associativity) : regex_scope.

(** Captured groups of a match: [m.group(i)] is [g !! i], and a group that
    took no part in the match is absent ([None] in Python). *)
Abbreviation groups := (gmap nat str).

Section Backtrack.
Context {A : Type}.

(** What remains to be matched after the current node: it receives the
    unread input and the groups captured so far. *)
Definition cont := str -> groups -> option A.

(** Greedy repetition: take as many characters as the class allows, then
    give characters back one at a time until the rest matches. *)
Fixpoint rep_greedy (p : char -> bool) (lo : nat) (k : cont)
    (s : str) (g : groups) : option A :=
  let stop := match lo with O => k s g | S _ => None end in
  match s with
  | c :: s' =>
      if p c then
        match rep_greedy p (pred lo) k s' g with
        | Some a => Some a
        | None => stop
        end
      else stop
  | [] => stop
  end.

(** Lazy repetition: try the rest first, take one more character only
    when the rest fails. *)
Fixpoint rep_lazy (p : char -> bool) (lo : nat) (k : cont)
    (s : str) (g : groups) : option A :=
  let more :=
    match s with
    | c :: s' => if p c then rep_lazy p (pred lo) k s' g else None
    | [] => None
    end in
  match lo with
  | O => match k s g with Some a => Some a | None => more end
  | S _ => more
  end.

(** [bt n r k s g]: match [r] at the front of [s], where [n] is the
    length of the whole subject (the anchor [^] holds only with all of it
    unread), then continue with [k]. *)
Fixpoint bt (n : nat) (r : regex) (k : cont) (s : str) (g : groups)
    : option A :=
  match r with
  | Bol => if (length s =? n)%nat then k s g else None
  | Eol =>
      match s with
      | [] => k s g
      | [c] => if (c =? nl)%N then k s g else None
      | _ => None
      end
  | Lit l =>
      match strip_prefix l s with
      | Some s' => k s' g
      | None => None
      end
  | Cls p =>
      match s with
      | c :: s' => if p c then k s' g else None
      | [] => None
      end
  | Rep true lo p => rep_greedy p lo k s g
  | Rep false lo p => rep_lazy p lo k s g
  | Cat r1 r2 => bt n r1 (bt n r2 k) s g
  | Grp i r1 =>
      bt n r1 (fun s' g' => k s' (<[i := take (length s - length s') s]> g')) s g
  | Opt r1 =>
      match bt n r1 k s g with
      | Some a => Some a
      | None => k s g
      end
  end.
End Backtrack.

(** A match of [pat] starting at the front of [s]: the number of characters
    matched and the groups. *)
Definition match_here (n : nat) (pat : regex) (s : str) : option (nat * groups) :=
  bt n pat (fun s' g => Some (length s - length s', g)) s ∅.

(** [re.match(pat, s)]: a match anchored at position 0. *)
Definition re_match (pat : regex) (s : str) : option groups :=
  snd <$> match_here (length s) pat s.

(** The pieces [re.sub] walks over: unmatched characters and matches, from
    left to right, matches not overlapping. *)
Inductive piece : Type :=
| Plain (c : char)
| Hit (g : groups).

(** [skip] counts the characters of the last match still to be passed over.
    The patterns of the source begin with a literal, so their matches are
    never empty; an empty match is followed by the character at its
    position. *)
Fixpoint pieces_from (n : nat) (pat : regex) (skip : nat) (s : str) : list piece :=
  match s with
  | [] =>
      match skip, match_here n pat [] with
      | O, Some (_, g) => [Hit g]
      | _, _ => []
      end
  | c :: s' =>
      match skip with
      | S m => pieces_from n pat m s'
      | O =>
          match match_here n pat s with
          | Some (O, g) => Hit g :: Plain c :: pieces_from n pat 0 s'
          | Some (S m, g) => Hit g :: pieces_from n pat m s'
          | None => Plain c :: pieces_from n pat 0 s'
          end
      end
  end.

Definition pieces (pat : regex) (s : str) : list piece :=
  pieces_from (length s) pat 0 s.

(** [re.sub(pat, repl, s)] with a function [repl] that has no effect. *)
Definition re_sub (pat : regex) (repl : groups -> str) (s : str) : str :=
  concat (List.map (fun p => match p with Plain c => [c] | Hit g => repl g end)
                   (pieces pat s)).

(** The three patterns of [ssg.py], their tokens set apart by spaces in the
    comments. *)

(** [^ --- \s* \n ( .*? ) \n --- \s* \n ( .* ) $] with [re.DOTALL]. *)
Definition frontmatter_pattern : regex :=
  (Bol · Lit (text "---") · Rep true 0 is_space · Lit [nl]
   · Grp 1 (Rep false 0 dot_all)
   · Lit (nl :: text "---") · Rep true 0 is_space · Lit [nl]
   · Grp 2 (Rep true 0 dot_all) · Eol)%re.

(** [<template \s+ include= [q] ( .*? ) [q] \s* >]. *)
Definition include_pattern : regex :=
  (Lit (text "<template") · Rep true 1 is_space · Lit (text "include=")
   · Cls is_quote · Grp 1 (Rep false 0 dot) · Cls is_quote
   · Rep true 0 is_space · Lit (text ">"))%re.

(** [<template \s+ variable= [q] ( .*? ) [q]
     (?: \s+ default= [q] ( .*? ) [q] )? \s* >]. *)
Definition variable_pattern : regex :=
  (Lit (text "<template") · Rep true 1 is_space · Lit (text "variable=")
   · Cls is_quote · Grp 1 (Rep false 0 dot) · Cls is_quote
   · Opt (Rep true 1 is_space · Lit (text "default=") · Cls is_quote
          · Grp 2 (Rep false 0 dot) · Cls is_quote)
   · Rep true 0 is_space · Lit (text ">"))%re.

(** ** Effects: exceptions and printed lines *)

Inductive exn : Type :=
| RecursionError       (* the interpreter's recursion limit was reached *)
| FileNotFoundError
| IsADirectoryError
| NotADirectoryError
| FileExistsError
| UnicodeDecodeError
| ValueError.

(** A path is the list of its parts ([PurePath.parts]). *)
Abbreviation path := (list str).

(** One constructor per [print] call of the source. *)
Inductive message : Type :=
| IncludeNotFound (filename : str)
| LayoutNotFound (layout_name : str) (file_path : path)
| BuildingSite
| Generated (out_rel_path : path)
| ErrorProcessing (src_path : path) (e : exn)
| CopiedAssets
| CopiedExtra
| GeneratedSitemap
| BuildComplete
| YamlParseError (e : str).

Inductive res (A : Type) : Type :=
| Ok (a : A)
| Raise (e : exn).
Arguments Ok {A} a.
Arguments Raise {A} e.

(** A computation returns or raises, and prints lines on the way. *)
Definition M (A : Type) : Type := res A * list message.

Definition ret {A} (a : A) : M A := (Ok a, []).
Definition raise {A} (e : exn) : M A := (Raise e, []).
Definition print (m : message) : M unit := (Ok tt, [m]).
Definition lift {A} (r : res A) : M A := (r, []).

Definition bind {A B} (m : M A) (f : A -> M B) : M B :=
  match m with
  | (Ok a, out) => let '(r, out') := f a in (r, out ++ out')
  | (Raise e, out) => (Raise e, out)
  end.

(** [try: m except Exception as e: h e]. *)
Definition catch {A} (m : M A) (h : exn -> M A) : M A :=
  match m with
  | (Ok a, out) => (Ok a, out)
  | (Raise e, out) => let '(r, out') := h e in (r, out ++ out')
  end.

Notation "'let*' x := m 'in' k" := (bind m (fun x => k))
  (at level 10, x name, m at level 100, k at level 200).
Notation "'let*' ' p := m 'in' k" := (bind m (fun x => let 'p := x in k))
  (at level 10, p pattern, m at level 100, k at level 200).

(** ** The site on disk *)

(** What a path names: a text file, a file that is not valid UTF-8, or a
    directory. *)
Inductive node : Type :=
| File (data : str)
| Garbled
| Dir.

(** [open(p, 'r', encoding='utf-8')] followed by [f.read()]. *)
Definition read_text (nd : option node) : M str :=
  match nd with
  | Some (File data) => ret data
  | Some Garbled => raise UnicodeDecodeError
  | Some Dir => raise IsADirectoryError
  | None => raise FileNotFoundError
  end.

Record site : Type := {
  content_dir : path;
  (** what the paths given to [build_page] name *)
  files : gmap path node;
  (** [os.walk(content_dir)] flattened: every [(root, file)] in visiting order *)
  walk : list (path * str);
  (** what [layouts_dir / name] names, for the names written in directives
      and in [layout] keys *)
  layouts : gmap str node;
  (** [shutil.copytree] of the assets directory into the output tree, when
      that directory exists *)
  copy_assets : option (gmap path str -> res (gmap path str));
  (** the copy of the items of the extra directory, when it exists *)
  copy_extra : option (gmap path str -> res (gmap path str));
  (** [os.sep], used by [str(path)] *)
  sep : str;
  (** [datetime.now().strftime('%Y-%m-%d')] *)
  today : str
}.

(** ** SSG.parse_frontmatter *)

Abbreviation metadata := (gmap str str).

(** The line-oriented parser of the source, lines 61 to 64: the branch
    taken when the [yaml] module is not installed.  The other branch hands
    the text to that library, which is no part of this repository. *)
Definition parse_lines (fm_text : str) : metadata :=
  foldl (fun md line =>
           match split_colon line with
           | Some (key, value) => <[strip key := strip value]> md
           | None => md
           end) ∅ (splitlines fm_text).

Definition parse_frontmatter (content : str) : metadata * str :=
  match re_match frontmatter_pattern content with
  | Some g =>
      let fm_text := default [] (g !! 1) in
      let body := default [] (g !! 2) in
      (parse_lines fm_text, body)
  | None => (∅, content)
  end.

(** *** With PyYAML

    Lines 54 to 58: when the [yaml] module is installed, the front-matter
    text goes to [yaml.safe_load] instead.  That library is no part of this
    repository: it is a parameter, [None] when the module is not
    installed. *)

(** What [yaml.safe_load(fm_text)] does: it returns a value that counts as
    true in a condition, or one that does not ([None], an empty mapping, an
    empty string, zero), or it raises [yaml.YAMLError] with a text, or
    another exception. *)
Inductive loaded (V : Type) : Type :=
| Truthy (v : V)
| Falsy
| YAMLError (e : str)
| Raises (ex : exn).
Arguments Truthy {V} v.
Arguments Falsy {V}.
Arguments YAMLError {V} e.
Arguments Raises {V} ex.

(** The metadata [parse_frontmatter] returns: a dictionary it has made
    itself, or the value PyYAML has loaded. *)
Inductive frontmatter_value (V : Type) : Type :=
| Dict (md : metadata)
| Loaded (v : V).
Arguments Dict {V} md.
Arguments Loaded {V} v.

(** Lines 53 to 64. *)
Definition load_metadata {V} (yaml : option (str -> loaded V)) (fm_text : str)
    : M (frontmatter_value V) :=
  match yaml with
  | Some safe_load =>
      match safe_load fm_text with
      | Truthy v => ret (Loaded v)
      | Falsy => ret (Dict ∅)
      | YAMLError e =>
          let* _ := print (YamlParseError e) in
          ret (Dict ∅)
      | Raises ex => raise ex
      end
  | None => ret (Dict (parse_lines fm_text))
  end.

(** Lines 48 to 67, with either branch of line 54. *)
Definition parse_frontmatter_with {V} (yaml : option (str -> loaded V))
    (content : str) : M (frontmatter_value V * str) :=
  match re_match frontmatter_pattern content with
  | Some g =>
      let fm_text := default [] (g !! 1) in
      let body := default [] (g !! 2) in
      let* md := load_metadata yaml fm_text in
      ret (md, body)
  | None => ret (Dict ∅, content)
  end.

(** ** SSG.process_includes *)

(** [re.sub(pat, repl, s)] with a callback that may print and raise: the
    callback runs once per match, from left to right. *)
Fixpoint sub_pieces (repl : groups -> M str) (ps : list piece) : M str :=
  match ps with
  | [] => ret []
  | Plain c :: ps' =>
      let* rest := sub_pieces repl ps' in
      ret (c :: rest)
  | Hit g :: ps' =>
      let* r := repl g in
      let* rest := sub_pieces repl ps' in
      ret (r ++ rest)
  end.

Definition re_sub_m (pat : regex) (repl : groups -> M str) (s : str) : M str :=
  sub_pieces repl (pieces pat s).

(** The source recurses with no guard of its own.  [limit] is what the
    interpreter allows: the number of nested activations of
    [process_includes] left before it raises [RecursionError]. *)
Fixpoint process_includes (limit : nat) (st : site) (content : str) : M str :=
  match limit with
  | O => raise RecursionError
  | S limit' =>
      let replace_include (g : groups) : M str :=
        let filename := default [] (g !! 1) in
        match layouts st !! filename with
        | Some nd =>
            let* included_content := read_text (Some nd) in
            process_includes limit' st included_content
        | None =>
            let* _ := print (IncludeNotFound filename) in
            ret []
        end in
      re_sub_m include_pattern replace_include content
  end.

(** ** SSG.process_variables *)

Definition process_variables (content : str) (variables : metadata) : str :=
  let replace_variable (g : groups) : str :=
    let var_name := default [] (g !! 1) in
    let default_val := default [] (g !! 2) in
    default default_val (variables !! var_name) in
  re_sub variable_pattern replace_variable content.

(** ** SSG.build_page *)

(** [p.relative_to(base)]. *)
Fixpoint relative_to (p base : path) : res path :=
  match base, p with
  | [], _ => Ok p
  | b :: base', a :: p' =>
      if bool_decide (a = b) then relative_to p' base' else Raise ValueError
  | _ :: _, [] => Raise ValueError
  end.

(** [p.name]. *)
Definition name (p : path) : str := default [] (last p).

(** [p.suffix]: the name from its last dot on, when that dot is neither the
    first nor the last character. *)
Definition suffix (p : path) : str :=
  match rfind_dot (name p) with
  | Some i =>
      if bool_decide (0 < i < length (name p) - 1) then drop i (name p) else []
  | None => []
  end.

(** [p.with_suffix('')]. *)
Definition with_suffix_empty (p : path) : res path :=
  match name p with
  | [] => Raise ValueError
  | nm =>
      Ok (removelast p ++ [take (length nm - length (suffix p)) nm])
  end.

(** Lines 114 to 140: layout inheritance, then the include pass and the
    variable pass. *)
Definition render (limit : nat) (st : site) (file_path : path)
    (meta : metadata) (body : str) : M (str * metadata) :=
  let* '(meta, body) :=
    match meta !! text "layout" with
    | Some layout_name =>
        match layouts st !! layout_name with
        | Some nd =>
            let* body := process_includes limit st body in
            let body := process_variables body meta in
            let meta := <[text "content" := body]> meta in
            let* body := read_text (Some nd) in
            ret (meta, body)
        | None =>
            let* _ := print (LayoutNotFound layout_name file_path) in
            ret (meta, body)
        end
    | None => ret (meta, body)
    end in
  let* pass1 := process_includes limit st body in
  let pass2 := process_variables pass1 meta in
  ret (pass2, meta).

(** Lines 143 to 152: the output path of a content file. *)
Definition output_path (st : site) (file_path : path) : res path :=
  match relative_to file_path (content_dir st) with
  | Ok rel_path =>
      if bool_decide (name rel_path = text "index.html") then Ok rel_path
      else
        match with_suffix_empty rel_path with
        | Ok p => Ok (p ++ [text "index.html"])
        | Raise e => Raise e
        end
  | Raise e => Raise e
  end.

Definition build_page (limit : nat) (st : site) (file_path : path)
    : M (path * str * metadata) :=
  let* raw_content := read_text (files st !! file_path) in
  let '(meta, body) := parse_frontmatter raw_content in
  let* '(pass2, meta) := render limit st file_path meta body in
  let* output_rel_path := lift (output_path st file_path) in
  ret (output_rel_path, pass2, meta).

(** ** SSG.generate_sitemap *)

(** [str(path)] for a relative path with at least one part; [sep] is
    [os.sep]. *)
Definition path_str (sep : str) (p : path) : str := join sep p.

(** Lines 165 to 167: the URL of a page. *)
Definition url_path (sep : str) (p : path) : str :=
  let u := replace (replace (path_str sep p) (text "index.html") [])
                   (text "\") (text "/") in
  if startswith u (text "/") then u else text "/" ++ u.

Definition loc_line (u : str) : str := text "    <loc>" ++ u ++ text "</loc>".

Definition sitemap_entry (st : site) (page : path * metadata) : list str :=
  let '(p, meta) := page in
  let u := url_path (sep st) p in
  let priority := if bool_decide (u = text "/") then text "1.0" else text "0.8" in
  let lastmod := default (today st) (meta !! text "date") in
  [ text "  <url>";
    loc_line u;
    text "    <lastmod>" ++ lastmod ++ text "</lastmod>";
    text "    <priority>" ++ priority ++ text "</priority>";
    text "  </url>" ].

Definition sitemap_lines (st : site) (pages : list (path * metadata)) : list str :=
  [ text "<?xml version=" ++ [dquote] ++ text "1.0" ++ [dquote]
      ++ text " encoding=" ++ [dquote] ++ text "UTF-8" ++ [dquote] ++ text "?>";
    text "<urlset xmlns=" ++ [dquote]
      ++ text "http://www.sitemaps.org/schemas/sitemap/0.9" ++ [dquote]
      ++ text ">" ]
  ++ concat (List.map (sitemap_entry st) pages)
  ++ [ text "</urlset>" ].

(** ** The output tree

    The files of the output directory, by their path relative to it.  The
    directories are the proper prefixes of these paths, and the output
    directory itself. *)

Abbreviation tree := (gmap path str).

Definition is_file (tr : tree) (p : path) : bool :=
  bool_decide (is_Some (tr !! p)).

Definition is_dir (tr : tree) (p : path) : bool :=
  bool_decide (p = [])
  || existsb (fun q => bool_decide (p `prefix_of` q ∧ p ≠ q))
             (fst <$> map_to_list tr).

(** [d.mkdir(parents=True, exist_ok=True)]: fails when [d] or a directory
    above it is a file. *)
Definition mkdir_parents (tr : tree) (d : path) : res unit :=
  if existsb (fun k => is_file tr (take k d)) (seq 1 (length d - 1))
  then Raise NotADirectoryError
  else if is_file tr d then Raise FileExistsError
  else Ok tt.

(** [open(p, 'w', encoding='utf-8')] followed by [f.write(data)], in an
    existing directory. *)
Definition write_text (tr : tree) (p : path) (data : str) : res tree :=
  if is_dir tr p then Raise IsADirectoryError else Ok (<[p := data]> tr).

Definition generate_sitemap (st : site) (tr : tree)
    (pages : list (path * metadata)) : res tree :=
  write_text tr [text "sitemap.xml"] (join [nl] (sitemap_lines st pages)).

(** ** SSG.build *)

(** The body of the [try] block (lines 204 to 214) for one source file:
    the output tree and [built_pages] before, and after. *)
Definition process_file (limit : nat) (st : site) (tr : tree)
    (built_pages : list (path * metadata)) (src_path : path)
    : M (tree * list (path * metadata)) :=
  let* '(out_rel_path, html, meta) := build_page limit st src_path in
  let* _ := lift (mkdir_parents tr (removelast out_rel_path)) in
  let* tr := lift (write_text tr out_rel_path html) in
  let* _ := print (Generated out_rel_path) in
  ret (tr, built_pages ++ [(out_rel_path, meta)]).

(** The body of the loop over the files of the walk (lines 201 to 216). *)
Definition visit (limit : nat) (st : site)
    (acc : tree * list (path * metadata)) (entry : path * str)
    : M (tree * list (path * metadata)) :=
  let '(tr, built_pages) := acc in
  let '(root, file) := entry in
  if endswith file (text ".html") then
    let src_path := root ++ [file] in
    catch (process_file limit st tr built_pages src_path)
      (fun e =>
         let* _ := print (ErrorProcessing src_path e) in
         ret (tr, built_pages))
  else ret (tr, built_pages).

Fixpoint walk_pages (limit : nat) (st : site)
    (acc : tree * list (path * metadata)) (entries : list (path * str))
    : M (tree * list (path * metadata)) :=
  match entries with
  | [] => ret acc
  | entry :: entries' =>
      let* acc := visit limit st acc entry in
      walk_pages limit st acc entries'
  end.

Definition copy_static (cp : option (tree -> res tree)) (done : message)
    (tr : tree) : M tree :=
  match cp with
  | Some f =>
      let* tr := lift (f tr) in
      let* _ := print done in
      ret tr
  | None => ret tr
  end.

(** The output directory is deleted and created again, so the walk starts
    from the empty tree. *)
Definition build (limit : nat) (st : site) : M tree :=
  let* _ := print BuildingSite in
  let* '(tr, built_pages) := walk_pages limit st (∅, []) (walk st) in
  let* tr := copy_static (copy_assets st) CopiedAssets tr in
  let* tr := copy_static (copy_extra st) CopiedExtra tr in
  let* tr := lift (generate_sitemap st tr built_pages) in
  let* _ := print GeneratedSitemap in
  let* _ := print BuildComplete in
  ret tr.

(** ** SSGEventHandler *)

Record event : Type := {
  is_directory : bool;
  src_path : str
}.

(** The handler: [last_build], and the number of calls of [ssg.build()] it
    has made. *)
Record handler : Type := {
  last_build : float;
  rebuilds : nat
}.

(** [SSGEventHandler(ssg)]. *)
Definition new_handler : handler := {| last_build := 0; rebuilds := 0 |}.

(** [on_any_event], where [now] is what [time.time()] returns in it and
    [built] is what the call of [self.ssg.build()] on line 319 does when it
    is reached: it returns with the output tree written, or it raises.  An
    exception leaves the method before line 320, with [last_build] as it
    was. *)
Definition on_any_event (now : float) (built : res tree) (h : handler)
    (e : event) : res unit * handler :=
  if is_directory e then (Ok tt, h)
  else if contains (text "_output") (src_path e) then (Ok tt, h)
  else if (now - last_build h <? 1)%float then (Ok tt, h)
  else
    match built with
    | Ok _ => (Ok tt, {| last_build := now; rebuilds := S (rebuilds h) |})
    | Raise ex =>
        (Raise ex, {| last_build := last_build h; rebuilds := S (rebuilds h) |})
    end.

(** The events a handler receives, in order, each with the clock reading
    of its call and with what a build does then.  An exception leaves the
    handler: what the observer that called it does next is no part of this
    repository, and the sequence ends there. *)
Fixpoint on_events (h : handler) (events : list (float * res tree * event))
    : res unit * handler :=
  match events with
  | [] => (Ok tt, h)
  | (now, built, e) :: events' =>
      match on_any_event now built h e with
      | (Ok _, h') => on_events h' events'
      | (Raise ex, h') => (Raise ex, h')
      end
  end.

(** ** SSG.watch: the polling loop

    Lines 278 to 299, the branch taken when [watchdog] is not installed.
    One iteration sees what [os.walk(base_dir)] yields then: each root, as
    the string it is, with [st_mtime] of each of its files. *)

Abbreviation snapshot := (list (str * list float)).

(** Lines 285 to 289, for the files of one root. *)
Definition scan_files (current_max : float) (mtimes : list float) : float :=
  foldl (fun current_max mtime =>
           if (current_max <? mtime)%float then mtime else current_max)
        current_max mtimes.

(** Lines 282 to 289: the largest modification time outside the roots that
    contain [_output]. *)
Definition scan_max (snap : snapshot) : float :=
  foldl (fun current_max entry =>
           if contains (text "_output") entry.1 then current_max
           else scan_files current_max entry.2)
        0%float snap.

(** The loop variable [last_mtime], and the number of calls of
    [self.build()] the loop has made. *)
Record poller : Type := {
  last_mtime : float;
  builds : nat
}.

(** Line 278. *)
Definition new_poller : poller := {| last_mtime := 0; builds := 0 |}.

(** Lines 281 to 297: one iteration of the loop, which goes on to the next
    one when the call of [self.build()] returns. *)
Definition poll (p : poller) (snap : snapshot) : poller :=
  let current_max := scan_max snap in
  let last := if (last_mtime p =? 0)%float then current_max else last_mtime p in
  if (last <? current_max)%float
  then {| last_mtime := current_max; builds := S (builds p) |}
  else {| last_mtime := last; builds := builds p |}.

(** The iterations of the loop over the snapshots they see, in order. *)
Definition polls (p : poller) (snaps : list snapshot) : poller :=
  foldl poll p snaps.

(** ** Vocabulary of the properties *)

(** [den n r x rest]: the pattern [r] matches the text [x] when [rest]
    follows it, in a subject of length [n]. *)
Fixpoint den (n : nat) (r : regex) (x rest : str) : Prop :=
  match r with
  | Bol => x = [] ∧ length rest = n
  | Eol => x = [] ∧ (rest = [] ∨ rest = [nl])
  | Lit l => x = l
  | Cls p => ∃ c, x = [c] ∧ p c = true
  | Rep _ lo p => lo ≤ length x ∧ forallb p x = true
  | Cat r1 r2 =>
      ∃ x1 x2, x = x1 ++ x2 ∧ den n r1 x1 (x2 ++ rest) ∧ den n r2 x2 rest
  | Grp _ r1 => den n r1 x rest
  | Opt r1 => x = [] ∨ den n r1 x rest
  end.

(** The text [s] contains a match of [pat] that begins after [pre]. *)
Definition occurs_after (pat : regex) (s pre : str) : Prop :=
  ∃ x post, s = pre ++ x ++ post ∧ den (length s) pat x post.

(** The text [s] contains a match of [pat]. *)
Definition occurs (pat : regex) (s : str) : Prop :=
  ∃ pre, occurs_after pat s pre.

(** [re.search(pat, s) is not None], by trying every position. *)
Fixpoint has_match_from (n : nat) (pat : regex) (s : str) : bool :=
  (match match_here n pat s with Some _ => true | None => false end) ||
  match s with
  | [] => false
  | _ :: s' => has_match_from n pat s'
  end.

Definition has_match (pat : regex) (s : str) : bool :=
  has_match_from (length s) pat s.

(** No match of [pat] in [s] begins at a position below [k]. *)
Definition no_match_before (pat : regex) (s : str) (k : nat) : bool :=
  forallb (fun i => match match_here (length s) pat (drop i s) with
                    | Some _ => false
                    | None => true
                    end)
          (seq 0 k).

(** [s.split(nl)]: the lines of a text. *)
Fixpoint lines (s : str) : list str :=
  match s with
  | [] => [[]]
  | c :: s' =>
      if (c =? nl)%N then [] :: lines s'
      else match lines s' with
           | l :: ls => (c :: l) :: ls
           | [] => [[c]]
           end
  end.

(** A delimiter line: three dashes, then nothing but white space. *)
Definition is_delimiter (l : str) : bool :=
  match strip_prefix (text "---") l with
  | Some w => forallb is_space w
  | None => false
  end.

(** An include directive as it is written: white space [ws1] and [ws2], the
    quotes [q1] and [q2], and the file name between them. *)
Definition include_tag (ws1 : str) (q1 : char) (filename : str) (q2 : char)
    (ws2 : str) : str :=
  text "<template" ++ ws1 ++ text "include=" ++ q1 :: filename
    ++ q2 :: ws2 ++ text ">".

(** The file names of the include directives that [re.sub] finds in a
    text. *)
Definition includes_of (content : str) : list str :=
  omap (fun p => match p with
                 | Hit g => Some (default [] (g !! 1))
                 | Plain _ => None
                 end)
       (pieces include_pattern content).

(** Includes nest less than [d] deep below [content]: the files it names
    nest less than [d - 1] deep, and so on. *)
Fixpoint nested_within (st : site) (d : nat) (content : str) : bool :=
  match d with
  | O => false
  | S d' =>
      forallb (fun filename =>
                 match layouts st !! filename with
                 | Some (File data) => nested_within st d' data
                 | _ => true
                 end)
              (includes_of content)
  end.

(** ** Sites and events used as examples *)

Definition empty_site : site :=
  {| content_dir := [text "content"]; files := ∅; walk := []; layouts := ∅;
     copy_assets := None; copy_extra := None;
     sep := text "/"; today := text "2026-01-01" |}.

(** A page that includes a header, which includes a logo. *)
Definition nested_site : site :=
  {| content_dir := [text "content"]; files := ∅; walk := [];
     layouts := {[ text "header.html" :=
                     File (text "<header><template include='logo.html'></header>");
                   text "logo.html" := File (text "<img src='logo.png'>") ]};
     copy_assets := None; copy_extra := None;
     sep := text "/"; today := text "2026-01-01" |}.

(** A layout file that includes itself. *)
Definition self_doc : str := text "<template include='loop.html'>".

Definition self_site : site :=
  {| content_dir := [text "content"];
     files := {[ [text "content"; text "index.html"] := File (text "<h1>Home</h1>");
                 [text "content"; text "about.html"] := File self_doc ]};
     walk := [([text "content"], text "about.html");
              ([text "content"], text "index.html")];
     layouts := {[ text "loop.html" := File self_doc ]};
     copy_assets := None; copy_extra := None;
     sep := text "/"; today := text "2026-01-01" |}.

(** A site with a page that cannot be read between two pages that can. *)
Definition mixed_site : site :=
  {| content_dir := [text "content"];
     files := {[ [text "content"; text "index.html"] := File (text "<h1>Home</h1>");
                 [text "content"; text "broken.html"] := Garbled;
                 [text "content"; text "blog"; text "post1.html"] :=
                   File (text "<p>First post</p>") ]};
     walk := [([text "content"], text "index.html");
              ([text "content"], text "broken.html");
              ([text "content"], text "notes.txt");
              ([text "content"; text "blog"], text "post1.html")];
     layouts := ∅;
     copy_assets := None; copy_extra := None;
     sep := text "/"; today := text "2026-01-01" |}.

Definition base_layout : str :=
  text "<template variable=" ++ [dquote] ++ text "content" ++ [dquote]
    ++ text "> - <template variable=" ++ [dquote] ++ text "title" ++ [dquote]
    ++ text ">".

Definition hi_meta : metadata :=
  {[ text "layout" := text "base.html"; text "title" := text "Hi" ]}.

Definition layout_site : site :=
  {| content_dir := [text "content"];
     files := {[ [text "content"; text "hello.html"] := File (text "---
layout: base.html
title: Hi
---
Hello") ]};
     walk := [([text "content"], text "hello.html")];
     layouts := {[ text "base.html" := File base_layout ]};
     copy_assets := None; copy_extra := None;
     sep := text "/"; today := text "2026-01-01" |}.

Definition page_event : event :=
  {| is_directory := false; src_path := text "/site/content/index.html" |}.

Definition dir_event : event :=
  {| is_directory := true; src_path := text "/site/content/blog" |}.

(** A page of the content directory whose name holds the text [_output]. *)
Definition notes_event : event :=
  {| is_directory := false;
     src_path := text "/site/content/build_output_notes.html" |}.

(** ** Vocabulary of further properties *)

(** A variable directive as it is written, without a default. *)
Definition variable_tag (ws1 : str) (q1 : char) (var_name : str) (q2 : char)
    (ws2 : str) : str :=
  text "<template" ++ ws1 ++ text "variable=" ++ q1 :: var_name
    ++ q2 :: ws2 ++ text ">".

(** A variable directive with a default value. *)
Definition variable_tag_default (ws1 : str) (q1 : char) (var_name : str)
    (q2 : char) (ws3 : str) (q3 : char) (default_val : str) (q4 : char)
    (ws2 : str) : str :=
  text "<template" ++ ws1 ++ text "variable=" ++ q1 :: var_name
    ++ q2 :: ws3 ++ text "default=" ++ q3 :: default_val
    ++ q4 :: ws2 ++ text ">".

(** A site whose layouts directory holds a directory, and is itself what
    the empty name stands for. *)
Definition dir_site : site :=
  {| content_dir := [text "content"]; files := ∅; walk := [];
     layouts := {[ [] := Dir; text "partials" := Dir ]};
     copy_assets := None; copy_extra := None;
     sep := text "/"; today := text "2026-01-01" |}.

(** A line of metadata as it is written: the key, a colon, a space, the
    value. *)
Definition metadata_line (kv : str * str) : str :=
  kv.1 ++ text ": " ++ kv.2.

(** A content file as it is written: the opening delimiter, one line per
    pair, the closing delimiter, the body. *)
Definition with_frontmatter (pairs : list (str * str)) (body : str) : str :=
  text "---" ++ nl :: join [nl] (metadata_line <$> pairs)
    ++ nl :: text "---" ++ nl :: body.

(** A key that can be written on a line of metadata and read back: not
    empty, no colon, no line boundary, no white space at either end. *)
Definition plain_key (k : str) : bool :=
  match k with
  | [] => false
  | _ =>
      forallb (fun c => negb (c =? 58)%N && negb (is_linebreak c)) k
      && bool_decide (strip k = k)
  end.

(** A value that can be written on a line of metadata and read back. *)
Definition plain_value (v : str) : bool :=
  forallb (fun c => negb (is_linebreak c)) v && bool_decide (strip v = v).

(** The closing part of the front-matter pattern:
    [\n --- \s* \n ( .* ) $]. *)
Definition closing_pattern : regex :=
  (Lit (nl :: text "---") · Rep true 0 is_space · Lit [nl]
   · Grp 2 (Rep true 0 dot_all) · Eol)%re.

(** A part of a path: not empty, with no slash and no backslash in it. *)
Definition is_name (c : str) : bool :=
  match c with
  | [] => false
  | _ => forallb (fun x => negb (x =? 47)%N && negb (x =? 92)%N) c
  end.

(** An event the handler drops before it looks at the clock. *)
Definition ignored (e : event) : bool :=
  is_directory e || contains (text "_output") (src_path e).

(** A site with a page [about.html] beside a directory [about] that holds
    an [index.html]. *)
Definition clash_site : site :=
  {| content_dir := [text "content"];
     files := {[ [text "content"; text "about.html"] := File (text "<p>old</p>");
                 [text "content"; text "about"; text "index.html"] :=
                   File (text "<p>new</p>") ]};
     walk := [([text "content"], text "about.html");
              ([text "content"; text "about"], text "index.html")];
     layouts := ∅;
     copy_assets := None; copy_extra := None;
     sep := text "/"; today := text "2026-01-01" |}.

(** The part of a snapshot the loop looks at: the roots that do not
    contain [_output]. *)
Definition watched (snap : snapshot) : snapshot :=
  List.filter (fun entry => negb (contains (text "_output") entry.1)) snap.

(** No content file of the walk opens with a front-matter delimiter: every
    page has the empty dictionary as its metadata, with PyYAML or without. *)
Definition no_frontmatter (st : site) : Prop :=
  ∀ root file s,
    (root, file) ∈ walk st →
    files st !! (root ++ [file]) = Some (File s) →
    forallb (fun l => negb (is_delimiter l)) (take 1 (lines s)) = true.

(** ** What the matcher accepts *)

Lemma strip_prefix_Some p s s' :
  strip_prefix p s = Some s' ↔ s = p ++ s'.
Proof.
  revert s. induction p as [|a p IH]; intros [|c s]; simpl.
  - split; congruence.
  - split; congruence.
  - split; [discriminate | intros H; discriminate].
  - destruct (N.eqb_spec a c) as [->|Hne].
    + rewrite IH. split; congruence.
    + split; [discriminate | intros H; congruence].
Qed.

Lemma strip_prefix_app p s : strip_prefix p (p ++ s) = Some s.
Proof. by apply strip_prefix_Some. Qed.

Section Sound.
Context {A : Type}.
Implicit Types (k : @cont A).

Lemma rep_greedy_sound p lo k s g a :
  rep_greedy p lo k s g = Some a →
  ∃ x rest, s = x ++ rest ∧ lo ≤ length x ∧ forallb p x = true
            ∧ k rest g = Some a.
Proof.
  revert lo. induction s as [|c s IH]; intros lo; simpl.
  - destruct lo; [|discriminate]. intros Hk. exists [], []. simpl. auto with lia.
  - assert (Hstop : match lo with 0 => k (c :: s) g | S _ => None end = Some a →
      ∃ x rest, c :: s = x ++ rest ∧ lo ≤ length x ∧ forallb p x = true
                ∧ k rest g = Some a).
    { destruct lo; [|discriminate]. intros Hk. exists [], (c :: s). simpl. auto with lia. }
    destruct (p c) eqn:Hp; [|exact Hstop].
    destruct (rep_greedy p (pred lo) k s g) eqn:Hrec; [|exact Hstop].
    intros [= ->]. destruct (IH _ Hrec) as (x & rest & -> & Hlo & Hall & Hk).
    exists (c :: x), rest. simpl. rewrite Hp. repeat split; auto with lia.
Qed.

Lemma rep_lazy_sound p lo k s g a :
  rep_lazy p lo k s g = Some a →
  ∃ x rest, s = x ++ rest ∧ lo ≤ length x ∧ forallb p x = true
            ∧ k rest g = Some a.
Proof.
  revert lo. induction s as [|c s IH]; intros lo; simpl.
  - destruct lo; [|discriminate]. destruct (k [] g) eqn:Hk; [|discriminate].
    intros [= ->]. exists [], []. simpl. auto with lia.
  - assert (Hmore : (if p c then rep_lazy p (pred lo) k s g else None) = Some a →
      ∃ x rest, c :: s = x ++ rest ∧ lo ≤ length x ∧ forallb p x = true
                ∧ k rest g = Some a).
    { destruct (p c) eqn:Hp; [|discriminate]. intros Hrec.
      destruct (IH _ Hrec) as (x & rest & -> & Hlo & Hall & Hk).
      exists (c :: x), rest. simpl. rewrite Hp. repeat split; auto with lia. }
    destruct lo; [|exact Hmore].
    destruct (k (c :: s) g) eqn:Hk; [|exact Hmore].
    intros [= ->]. exists [], (c :: s). simpl. auto with lia.
Qed.

(** Whatever the matcher accepts is matched text followed by text that
    the continuation accepts. *)
Lemma bt_sound n r k s g a :
  bt n r k s g = Some a →
  ∃ x rest g', s = x ++ rest ∧ den n r x rest ∧ k rest g' = Some a.
Proof.
  revert k s g. induction r as [| |l|p|gr lo p|r1 IH1 r2 IH2|i r1 IH1|r1 IH1];
    intros k s g; simpl.
  - destruct (Nat.eqb_spec (length s) n); [|discriminate].
    intros Hk. exists [], s, g. auto.
  - destruct s as [|c [|d s]]; try discriminate.
    + intros Hk. exists [], [], g. auto.
    + destruct (N.eqb_spec c nl) as [->|]; [|discriminate].
      intros Hk. exists [], [nl], g. auto.
  - destruct (strip_prefix l s) as [s'|] eqn:Hs; [|discriminate].
    apply strip_prefix_Some in Hs as ->. intros Hk. exists l, s', g. auto.
  - destruct s as [|c s]; [discriminate|].
    destruct (p c) eqn:Hp; [|discriminate].
    intros Hk. exists [c], s, g. eauto.
  - destruct gr; intros H;
      [apply rep_greedy_sound in H | apply rep_lazy_sound in H];
      destruct H as (x & rest & -> & ? & ? & ?); exists x, rest, g; auto.
  - intros H. apply IH1 in H as (x1 & rest1 & g1 & -> & H1 & H).
    apply IH2 in H as (x2 & rest & g2 & -> & H2 & H).
    exists (x1 ++ x2), rest, g2. rewrite <- app_assoc. eauto 10.
  - intros H. apply IH1 in H as (x & rest & g1 & -> & H1 & H). eauto 10.
  - destruct (bt n r1 k s g) eqn:Hr.
    + intros [= ->]. apply IH1 in Hr as (x & rest & g1 & -> & H1 & H). eauto 10.
    + intros Hk. exists [], s, g. auto.
Qed.
End Sound.

Lemma match_here_sound n pat s len g :
  match_here n pat s = Some (len, g) →
  ∃ x rest, s = x ++ rest ∧ den n pat x rest ∧ len = length x.
Proof.
  unfold match_here. intros H.
  apply bt_sound in H as (x & rest & g' & -> & Hd & [= <- _]).
  exists x, rest. rewrite length_app. auto with lia.
Qed.

(** ** What the matcher finds *)

Section Complete.
Context {A : Type}.
Implicit Types (k : @cont A).

Lemma rep_greedy_complete p lo k x rest g :
  lo ≤ length x → forallb p x = true → is_Some (k rest g) →
  is_Some (rep_greedy p lo k (x ++ rest) g).
Proof.
  revert lo. induction x as [|c x IH]; intros lo Hlo Hall Hk; simpl in *.
  - assert (lo = 0) as -> by lia.
    destruct rest as [|c s]; simpl; [done|].
    destruct (p c); [|done].
    by destruct (rep_greedy p 0 k s g).
  - apply andb_prop in Hall as [-> Hall].
    destruct (IH (pred lo)) as [a ->]; [lia|done..|]. done.
Qed.

Lemma rep_lazy_complete p lo k x rest g :
  lo ≤ length x → forallb p x = true → is_Some (k rest g) →
  is_Some (rep_lazy p lo k (x ++ rest) g).
Proof.
  revert lo. induction x as [|c x IH]; intros lo Hlo Hall Hk; simpl in *.
  - assert (lo = 0) as -> by lia.
    destruct rest as [|c s]; simpl; destruct Hk as [a ->]; done.
  - apply andb_prop in Hall as [-> Hall].
    specialize (IH (pred lo) ltac:(lia) Hall Hk).
    destruct lo; [|done]. by destruct (k (c :: x ++ rest) g).
Qed.

(** Whenever a text matched by the pattern can be followed by text the
    continuation accepts, the matcher finds a match. *)
Lemma bt_complete n r k x rest g :
  den n r x rest → (∀ g', is_Some (k rest g')) →
  is_Some (bt n r k (x ++ rest) g).
Proof.
  revert k x rest g.
  induction r as [| |l|p|gr lo p|r1 IH1 r2 IH2|i r1 IH1|r1 IH1];
    intros k x rest g; simpl.
  - intros [-> <-] Hk. simpl. by rewrite Nat.eqb_refl.
  - intros [-> [-> | ->]] Hk; simpl; done.
  - intros -> Hk. by rewrite strip_prefix_app.
  - intros (c & -> & Hp) Hk. simpl. by rewrite Hp.
  - intros [Hlo Hall] Hk.
    destruct gr; [by apply rep_greedy_complete | by apply rep_lazy_complete].
  - intros (x1 & x2 & -> & H1 & H2) Hk. rewrite <- app_assoc.
    apply IH1; [done|]. intros g'. by apply IH2.
  - intros H Hk. apply IH1; [done|]. intros g'. apply Hk.
  - intros [-> | H] Hk; simpl.
    + by destruct (bt n r1 k rest g).
    + destruct (bt n r1 k (x ++ rest) g) eqn:E; [done|].
      pose proof (IH1 k x rest g H Hk) as HS. rewrite E in HS. by destruct HS.
Qed.
End Complete.

Lemma match_here_complete n pat x rest :
  den n pat x rest → is_Some (match_here n pat (x ++ rest)).
Proof. intros H. unfold match_here. by apply bt_complete. Qed.

Lemma re_match_complete pat s :
  den (length s) pat s [] → is_Some (re_match pat s).
Proof.
  intros H. unfold re_match. apply fmap_is_Some.
  pose proof (match_here_complete (length s) pat s [] H) as HS.
  by rewrite app_nil_r in HS.
Qed.

(** ** Front-matter delimiters *)

Lemma lines_cons s : ∃ l ls, lines s = l :: ls.
Proof.
  induction s as [|c s (l & ls & IH)]; simpl; [eauto|].
  destruct (c =? nl)%N; [eauto|]. rewrite IH. eauto.
Qed.

Lemma lines_app_nl x y : lines (x ++ nl :: y) = lines x ++ lines y.
Proof.
  induction x as [|c x IH]; simpl; [done|].
  destruct (c =? nl)%N; [by rewrite IH|].
  rewrite IH. destruct (lines_cons x) as (l & ls & ->). done.
Qed.

Lemma lines_one w : forallb dot w = true → lines w = [w].
Proof.
  induction w as [|c w IH]; simpl; [done|].
  intros [Hc Hw]%andb_prop. unfold dot in Hc.
  destruct (c =? nl)%N; [done|]. by rewrite IH.
Qed.

Lemma lines_head_dashes w :
  forallb is_space w = true →
  ∃ l ls, lines (text "---" ++ w) = l :: ls ∧ is_delimiter l = true.
Proof.
  intros Hw.
  assert (Hhd : ∃ l ls, lines w = l :: ls ∧ forallb is_space l = true).
  { clear -Hw. induction w as [|c w IH]; simpl; [by exists [], []|].
    simpl in Hw. apply andb_prop in Hw as [Hc Hw].
    destruct (c =? nl)%N; [by exists [], (lines w)|].
    destruct (IH Hw) as (l & ls & -> & Hl). exists (c :: l), ls. simpl.
    by rewrite Hc, Hl. }
  destruct Hhd as (l & ls & Hl & Hsp).
  exists (text "---" ++ l), ls. split.
  - change (text "---" ++ w) with (45 :: 45 :: 45 :: w)%N. simpl. by rewrite Hl.
  - unfold is_delimiter. by rewrite strip_prefix_app.
Qed.

(** The shape of every text the front-matter pattern matches. *)
Lemma frontmatter_shape s g :
  re_match frontmatter_pattern s = Some g →
  ∃ w1 g1 w2 g2,
    s = text "---" ++ w1 ++ nl :: g1 ++ nl :: text "---" ++ w2 ++ nl :: g2
    ∧ forallb is_space w1 = true ∧ forallb is_space w2 = true.
Proof.
  unfold re_match. destruct (match_here _ _ _) as [[len g0]|] eqn:H; [|done].
  intros _. apply match_here_sound in H as (x & rest & -> & Hd & _).
  simpl in Hd.
  destruct Hd as (? & ? & -> & [-> _] & ? & ? & -> & -> & w1 & ? & -> & [_ Hw1]
    & ? & ? & -> & -> & g1 & ? & -> & _ & ? & ? & -> & -> & w2 & ? & -> & [_ Hw2]
    & ? & ? & -> & -> & g2 & ? & -> & _ & -> & _).
  exists w1, g1, w2, (g2 ++ rest). split; [|done].
  simpl. repeat (rewrite <- ?app_assoc; simpl). done.
Qed.

Lemma frontmatter_no_match_first_line s l ls :
  lines s = l :: ls → is_delimiter l = false →
  re_match frontmatter_pattern s = None.
Proof.
  intros Hl Hd. destruct (re_match _ s) as [g|] eqn:H; [|done].
  apply frontmatter_shape in H as (w1 & g1 & w2 & g2 & -> & Hw1 & _).
  rewrite app_assoc, lines_app_nl in Hl.
  destruct (lines_head_dashes w1 Hw1) as (l' & ls' & Hl' & Hd').
  rewrite Hl' in Hl. simpl in Hl. congruence.
Qed.

(** C5.  A text none of whose lines is a front-matter delimiter (three
    dashes followed by nothing but white space) is parsed to the empty
    metadata and to itself as the body, character for character;
    [parse_frontmatter] returns this pair and raises nothing. *)
Theorem parse_frontmatter_no_delimiters (s : str) :
  forallb (fun l => negb (is_delimiter l)) (lines s) = true →
  parse_frontmatter s = (∅, s).
Proof.
  intros Hall. destruct (lines_cons s) as (l & ls & Hl).
  rewrite Hl in Hall. simpl in Hall. apply andb_prop in Hall as [Hd _].
  apply negb_true_iff in Hd.
  unfold parse_frontmatter.
  by rewrite (frontmatter_no_match_first_line s l ls Hl Hd).
Qed.

Lemma parse_frontmatter_no_delimiters_witness :
  parse_frontmatter (text "<h1>Title</h1>
-- not a delimiter
<p>text</p>
") = (∅, text "<h1>Title</h1>
-- not a delimiter
<p>text</p>
").
Proof. apply parse_frontmatter_no_delimiters. vm_compute. reflexivity. Defined.

(** C10.  A text that opens with a delimiter line and metadata lines, and
    whose closing delimiter line is its last line with no newline after it,
    is not recognised as front matter: the metadata is empty and the body is
    the whole text, delimiter lines included.  The same text followed by a
    newline is recognised by the pattern. *)
Theorem parse_frontmatter_unterminated (w1 fm w2 : str) :
  forallb is_space w1 = true → forallb dot w1 = true →
  forallb is_space w2 = true → forallb dot w2 = true →
  forallb (fun l => negb (is_delimiter l)) (lines fm) = true →
  let s := text "---" ++ w1 ++ nl :: fm ++ nl :: text "---" ++ w2 in
  parse_frontmatter s = (∅, s)
  ∧ is_Some (re_match frontmatter_pattern (s ++ [nl])).
Proof.
  intros Hs1 Hd1 Hs2 Hd2 Hfm s. split.
  - unfold parse_frontmatter.
    destruct (re_match frontmatter_pattern s) as [g|] eqn:H; [exfalso|done].
    apply frontmatter_shape in H as (a & g1 & b & g2 & Hs & Ha & Hb).
    apply (f_equal lines) in Hs. revert Hs. unfold s.
    rewrite (app_assoc _ w1), lines_app_nl, lines_app_nl.
    rewrite (app_assoc _ a), lines_app_nl, lines_app_nl.
    rewrite (app_assoc _ b), lines_app_nl.
    rewrite (lines_one (text "---" ++ w1)) by (simpl; by rewrite Hd1).
    rewrite (lines_one (text "---" ++ w2)) by (simpl; by rewrite Hd2).
    destruct (lines_head_dashes a Ha) as (la & lsa & -> & _).
    destruct (lines_head_dashes b Hb) as (d & lsb & -> & Hd).
    destruct (lines_cons g2) as (l2 & ls2 & ->).
    intros Hs. cbn [app] in Hs. injection Hs as _ Hs.
    assert (Hlast : ∃ L t, lsb ++ l2 :: ls2 = L ++ [t]).
    { destruct (lsb ++ l2 :: ls2) as [|y ys] eqn:E using rev_ind.
      - by destruct lsb.
      - eauto. }
    destruct Hlast as (L & t & HL). rewrite HL in Hs.
    assert (lines fm = lsa ++ lines g1 ++ d :: L) as Hfm'.
    { replace (lsa ++ lines g1 ++ d :: L ++ [t])
        with ((lsa ++ lines g1 ++ d :: L) ++ [t]) in Hs
        by (by rewrite <- !app_assoc).
      by apply app_inj_tail in Hs as [Hs _]. }
    rewrite Hfm', !forallb_app in Hfm. simpl in Hfm. rewrite Hd in Hfm.
    simpl in Hfm. rewrite !andb_false_r in Hfm. done.
  - apply re_match_complete. simpl.
    exists [], (s ++ [nl]). split_and!; [done|done|by rewrite app_nil_r|].
    exists (text "---"), (w1 ++ nl :: fm ++ nl :: text "---" ++ w2 ++ [nl]).
    split_and!; [unfold s; by repeat (rewrite <- ?app_assoc; simpl)|done|].
    exists w1, (nl :: fm ++ nl :: text "---" ++ w2 ++ [nl]).
    split_and!; [done|lia|done|].
    exists [nl], (fm ++ nl :: text "---" ++ w2 ++ [nl]). split_and!; [done|done|].
    exists fm, (nl :: text "---" ++ w2 ++ [nl]).
    split_and!; [done|lia|by apply forallb_forall|].
    exists (nl :: text "---"), (w2 ++ [nl]). split_and!; [done|done|].
    exists w2, [nl]. split_and!; [done|lia|done|].
    exists [nl], []. split_and!; [done|done|].
    exists [], []. split_and!; [done|lia|done|done|by left].
Qed.

Lemma parse_frontmatter_unterminated_witness :
  let s := text "---
title: Hi
layout: base.html
---" in
  parse_frontmatter s = (∅, s)
  ∧ is_Some (re_match frontmatter_pattern (s ++ [nl])).
Proof.
  exact (parse_frontmatter_unterminated [] (text "title: Hi
layout: base.html") [] eq_refl eq_refl eq_refl eq_refl eq_refl).
Defined.

(** ** The monad *)

Lemma bind_ret_l {A B} (a : A) (f : A -> M B) : bind (ret a) f = f a.
Proof. unfold bind, ret. by destruct (f a). Qed.

Lemma bind_ret_r {A} (m : M A) : bind m ret = m.
Proof. destruct m as [[a|e] out]; simpl; by rewrite ?app_nil_r. Qed.

Lemma bind_assoc {A B C} (m : M A) (f : A -> M B) (h : B -> M C) :
  bind (bind m f) h = bind m (fun a => bind (f a) h).
Proof.
  destruct m as [[a|e] out]; simpl; [|done].
  destruct (f a) as [[b|e] out1]; simpl; [|done].
  destruct (h b) as [r out2]. by rewrite app_assoc.
Qed.

Lemma bind_raise {A B} (m : M A) (f : A -> M B) e :
  fst m = Raise e → fst (bind m f) = Raise e.
Proof. destruct m as [[a|e'] out]; simpl; [done|]. by intros [= ->]. Qed.

Lemma bind_ext {A B} (m : M A) (f f' : A -> M B) :
  (∀ a, f a = f' a) → bind m f = bind m f'.
Proof. intros H. destruct m as [[a|e] out]; simpl; [by rewrite H|done]. Qed.

(** ** Scanning for matches *)

Lemma pieces_from_skip n pat x s :
  pieces_from n pat (length x) (x ++ s) = pieces_from n pat 0 s.
Proof.
  induction x as [|c x IH]; simpl; [|done].
  destruct s; done.
Qed.

Lemma pieces_from_plain n pat pre rest :
  (∀ a b, pre = a ++ b → b ≠ [] → match_here n pat (b ++ rest) = None) →
  pieces_from n pat 0 (pre ++ rest)
  = (Plain <$> pre) ++ pieces_from n pat 0 rest.
Proof.
  induction pre as [|c pre IH]; intros H; [done|].
  change ((c :: pre) ++ rest) with (c :: (pre ++ rest)).
  cbn [pieces_from].
  pose proof (H [] (c :: pre) eq_refl ltac:(done)) as H0.
  change ((c :: pre) ++ rest) with (c :: pre ++ rest) in H0. rewrite H0.
  rewrite IH; [done|]. intros a b -> Hb. by apply (H (c :: a) b).
Qed.

Lemma sub_pieces_plain repl s : sub_pieces repl (Plain <$> s) = ret s.
Proof.
  induction s as [|c s IH]; [done|].
  rewrite fmap_cons. cbn [sub_pieces]. by rewrite IH.
Qed.

Lemma sub_pieces_app_plain repl pre ps :
  sub_pieces repl ((Plain <$> pre) ++ ps)
  = bind (sub_pieces repl ps) (fun rest => ret (pre ++ rest)).
Proof.
  induction pre as [|c pre IH].
  - by rewrite bind_ret_r.
  - rewrite fmap_cons. cbn [app sub_pieces].
    rewrite IH, bind_assoc. apply bind_ext. intros a. by rewrite bind_ret_l.
Qed.

Lemma occurs_after_match pat s a b :
  s = a ++ b → is_Some (match_here (length s) pat b) → occurs_after pat s a.
Proof.
  intros -> [[len g] H].
  apply match_here_sound in H as (x & rest & -> & Hd & _).
  by exists x, rest.
Qed.

Lemma match_occurs_after pat s a :
  occurs_after pat s a →
  is_Some (match_here (length s) pat (drop (length a) s)).
Proof.
  intros (x & post & Hs & Hd).
  rewrite Hs at 2. rewrite drop_app_length.
  by apply match_here_complete.
Qed.

(** A text with no match of the pattern is cut into its characters. *)
Lemma pieces_no_match pat s :
  ¬ occurs pat s → pieces pat s = Plain <$> s.
Proof.
  intros Hno. unfold pieces.
  rewrite <- (app_nil_r s) at 2.
  rewrite pieces_from_plain.
  - simpl. destruct (match_here (length s) pat []) as [[len g]|] eqn:H.
    + destruct Hno. exists s. apply (occurs_after_match _ _ s []); [by rewrite app_nil_r|].
      by rewrite H.
    + by rewrite app_nil_r.
  - intros a b -> Hb. rewrite app_nil_r.
    destruct (match_here _ pat b) eqn:H; [|done].
    destruct Hno. exists a. apply (occurs_after_match _ _ a b); [done|]. by rewrite H.
Qed.

Lemma has_match_from_spec n pat s :
  has_match_from n pat s = true ↔
  ∃ a b, s = a ++ b ∧ is_Some (match_here n pat b).
Proof.
  induction s as [|c s IH]; simpl.
  - destruct (match_here n pat []) eqn:H; simpl.
    + split; [|done]. intros _. exists [], []. by rewrite H.
    + split; [done|]. intros (a & b & Hab & Hm).
      symmetry in Hab. apply app_eq_nil in Hab as [-> ->]. rewrite H in Hm. by destruct Hm.
  - destruct (match_here n pat (c :: s)) eqn:H; simpl.
    + split; [|done]. intros _. exists [], (c :: s). by rewrite H.
    + rewrite IH. split.
      * intros (a & b & -> & Hm). by exists (c :: a), b.
      * intros (a & b & Hab & Hm). destruct a as [|c' a]; simpl in Hab.
        -- subst b. rewrite H in Hm. by destruct Hm.
        -- injection Hab as -> ->. eauto.
Qed.

(** The search decides whether a text contains a match. *)
Lemma has_match_occurs pat s : has_match pat s = true ↔ occurs pat s.
Proof.
  unfold has_match. rewrite has_match_from_spec. split.
  - intros (a & b & Hs & Hm). exists a. by apply (occurs_after_match _ _ a b).
  - intros (a & Ha). pose proof (match_occurs_after _ _ _ Ha) as Hm.
    exists (take (length a) s), (drop (length a) s). by rewrite take_drop.
Qed.

Lemma no_match_before_spec pat s k :
  no_match_before pat s k = true →
  ∀ a, occurs_after pat s a → k ≤ length a.
Proof.
  intros Hall a Ha. destruct (decide (k ≤ length a)) as [|Hlt]; [done|].
  unfold no_match_before in Hall. rewrite forallb_forall in Hall.
  specialize (Hall (length a)). apply match_occurs_after in Ha as [m Hm].
  rewrite Hm in Hall. discriminate Hall. apply in_seq. lia.
Qed.

(** ** Matching a directive *)

Section Exact.
Context {A : Type}.
Implicit Types (k : @cont A).

(** A greedy repetition followed by a character outside the class gives
    nothing back. *)
Lemma rep_greedy_all p lo k w s g a :
  forallb p w = true → lo ≤ length w →
  match s with c :: _ => p c = false | [] => True end →
  k s g = Some a →
  rep_greedy p lo k (w ++ s) g = Some a.
Proof.
  revert lo. induction w as [|c w IH]; intros lo Hall Hlo Hs Hk; simpl in *.
  - assert (lo = 0) as -> by lia.
    destruct s as [|c s]; simpl; [done|]. by rewrite Hs.
  - apply andb_prop in Hall as [-> Hall].
    by rewrite (IH (pred lo)) by (done || lia).
Qed.

(** A lazy repetition stops at the first place where the rest matches. *)
Lemma rep_lazy_first p (q : char -> bool) k x s g a :
  forallb (fun c => p c && negb (q c)) x = true →
  (∀ c s', q c = false → k (c :: s') g = None) →
  k s g = Some a →
  rep_lazy p 0 k (x ++ s) g = Some a.
Proof.
  intros Hall Hq Hk. induction x as [|c x IH]; simpl in *.
  - destruct s; simpl; by rewrite Hk.
  - apply andb_prop in Hall as [[Hp Hc]%andb_prop Hall].
    apply negb_true_iff in Hc.
    rewrite (Hq c _ Hc), Hp. by apply IH.
Qed.
End Exact.

Lemma include_tag_length ws1 q1 filename q2 ws2 :
  length (include_tag ws1 q1 filename q2 ws2)
  = 20 + length ws1 + length filename + length ws2.
Proof.
  unfold include_tag.
  repeat (rewrite ?length_app; cbn [length]).
  change (length (text "<template")) with 9.
  change (length (text "include=")) with 8.
  change (length (text ">")) with 1. lia.
Qed.

(** The include pattern matches a directive exactly, and captures its file
    name. *)
Lemma match_here_tag n ws1 q1 filename q2 ws2 post :
  ws1 ≠ [] → forallb is_space ws1 = true →
  is_quote q1 = true → is_quote q2 = true →
  forallb (fun c => dot c && negb (is_quote c)) filename = true →
  forallb is_space ws2 = true →
  match_here n include_pattern (include_tag ws1 q1 filename q2 ws2 ++ post)
  = Some (length (include_tag ws1 q1 filename q2 ws2), <[1 := filename]> ∅).
Proof.
  intros Hne Hws1 Hq1 Hq2 Hname Hws2.
  unfold match_here, include_pattern, include_tag.
  repeat (rewrite <- ?app_assoc, <- ?app_comm_cons).
  cbn [bt]. rewrite strip_prefix_app.
  apply rep_greedy_all; [done|destruct ws1; simpl; [done|lia]|done|].
  cbn [bt]. rewrite strip_prefix_app. rewrite Hq1.
  apply rep_lazy_first with (q := is_quote); [done| |].
  { intros c s' Hc. cbn [bt]. by rewrite Hc. }
  cbn [bt]. rewrite Hq2.
  apply rep_greedy_all; [done|lia|done|].
  cbn [bt]. rewrite strip_prefix_app.
  f_equal. f_equal.
  - repeat (rewrite ?length_app; cbn [length]).
    change (length (text "<template")) with 9.
    change (length (text "include=")) with 8.
    change (length (text ">")) with 1. lia.
  - f_equal. apply take_app_length'. rewrite length_app. lia.
Qed.

Lemma match_here_include_n n n' s :
  match_here n include_pattern s = match_here n' include_pattern s.
Proof. reflexivity. Qed.

Lemma pieces_from_include_n n n' skip s :
  pieces_from n include_pattern skip s = pieces_from n' include_pattern skip s.
Proof.
  revert skip. induction s as [|c s IH]; intros [|m]; cbn [pieces_from];
    rewrite ?(match_here_include_n n n'); try done.
  destruct (match_here n' include_pattern (c :: s)) as [[[|len] g]|];
    by rewrite ?IH.
Qed.

(** ** Include expansion *)

Lemma process_includes_S limit st content :
  process_includes (S limit) st content =
  sub_pieces
    (fun g =>
       match layouts st !! default [] (g !! 1) with
       | Some nd =>
           let* included_content := read_text (Some nd) in
           process_includes limit st included_content
       | None =>
           let* _ := print (IncludeNotFound (default [] (g !! 1))) in
           ret []
       end)
    (pieces include_pattern content).
Proof. reflexivity. Qed.

Lemma process_includes_plain limit st doc :
  ¬ occurs include_pattern doc →
  process_includes (S limit) st doc = ret doc.
Proof.
  intros H. rewrite process_includes_S, (pieces_no_match _ _ H).
  apply sub_pieces_plain.
Qed.

(** C9.  On a document that contains no include directive,
    [process_includes] applied twice gives what it gives applied once, under
    every recursion limit; with room for one call it returns the document
    unchanged and prints nothing. *)
Theorem process_includes_idempotent (st : site) (doc : str) :
  ¬ occurs include_pattern doc →
  (∀ limit,
     (let* once := process_includes limit st doc in
      process_includes limit st once)
     = process_includes limit st doc)
  ∧ (∀ limit, process_includes (S limit) st doc = ret doc).
Proof.
  intros H. split; [|intros limit; by apply process_includes_plain].
  intros [|limit]; [done|].
  rewrite (process_includes_plain _ _ _ H), bind_ret_l.
  by apply process_includes_plain.
Qed.

Lemma process_includes_idempotent_witness :
  let doc := text "<p>Hello <template variable='title'></p>" in
  (∀ limit,
     (let* once := process_includes limit empty_site doc in
      process_includes limit empty_site once)
     = process_includes limit empty_site doc)
  ∧ (∀ limit, process_includes (S limit) empty_site doc = ret doc).
Proof.
  apply process_includes_idempotent.
  rewrite <- has_match_occurs. vm_compute. discriminate.
Defined.

(** C6.  In a text [pre ++ tag ++ post] where [tag] is an include
    directive naming a file that does not exist under the layouts directory
    and no match of the include pattern begins before it, [process_includes]
    prints the warning for that file, puts the empty string in the place of
    the directive, leaves [pre] as it is and goes on with [post]; when [post]
    holds no include directive the result is [pre ++ post]. *)
Theorem missing_include_removed (st : site) (limit : nat)
    (pre ws1 : str) (q1 : char) (filename : str) (q2 : char) (ws2 post : str) :
  let tag := include_tag ws1 q1 filename q2 ws2 in
  let s := pre ++ tag ++ post in
  ws1 ≠ [] → forallb is_space ws1 = true →
  is_quote q1 = true → is_quote q2 = true →
  forallb (fun c => dot c && negb (is_quote c)) filename = true →
  forallb is_space ws2 = true →
  layouts st !! filename = None →
  (∀ a, occurs_after include_pattern s a → length pre ≤ length a) →
  process_includes (S limit) st s
  = (let* _ := print (IncludeNotFound filename) in
     let* rest := process_includes (S limit) st post in
     ret (pre ++ rest))
  ∧ (¬ occurs include_pattern post →
     process_includes (S limit) st s
     = (Ok (pre ++ post), [IncludeNotFound filename])).
Proof.
  intros tag s Hne Hws1 Hq1 Hq2 Hname Hws2 Hmissing Hfirst.
  assert (Heq : process_includes (S limit) st s
    = (let* _ := print (IncludeNotFound filename) in
       let* rest := process_includes (S limit) st post in
       ret (pre ++ rest))).
  { rewrite !process_includes_S. unfold pieces at 1.
    unfold s. rewrite pieces_from_plain.
    - rewrite sub_pieces_app_plain.
      pose proof (match_here_tag (length s) ws1 q1 filename q2 ws2 post
                    Hne Hws1 Hq1 Hq2 Hname Hws2) as Hm.
      fold tag in Hm. fold s.
      destruct tag as [|c tag'] eqn:Htag; [done|].
      change ((c :: tag') ++ post) with (c :: tag' ++ post) in *.
      cbn [pieces_from]. rewrite Hm. cbn [length].
      rewrite pieces_from_skip. cbn [sub_pieces].
      rewrite lookup_insert_eq. cbn [from_option id]. rewrite Hmissing.
      rewrite (pieces_from_include_n (length s) (length post)).
      fold (pieces include_pattern post).
      rewrite !bind_assoc. apply bind_ext. intros _.
      rewrite bind_ret_l, bind_assoc. apply bind_ext. intros rest.
      by rewrite bind_ret_l.
    - intros a b -> Hb.
      destruct (match_here _ _ (b ++ tag ++ post)) eqn:Hm; [exfalso|done].
      assert (Hocc : occurs_after include_pattern s a).
      { apply (occurs_after_match _ _ a (b ++ tag ++ post)).
        - unfold s. by rewrite <- app_assoc.
        - unfold s. by rewrite Hm. }
      apply Hfirst in Hocc. rewrite length_app in Hocc.
      destruct b; [done|]. simpl in Hocc. lia. }
  split; [done|]. intros Hpost. rewrite Heq.
  by rewrite (process_includes_plain _ _ _ Hpost).
Qed.

Lemma missing_include_removed_witness :
  process_includes 1 empty_site
    (text "<p>before</p>
<template include='nav.html' >
<p>after</p>")
  = (Ok (text "<p>before</p>

<p>after</p>"), [IncludeNotFound (text "nav.html")]).
Proof.
  apply (missing_include_removed empty_site 0 (text "<p>before</p>
") (text " ") squote (text "nav.html") squote (text " ") (text "
<p>after</p>")); try done.
  - apply no_match_before_spec. vm_compute. reflexivity.
  - rewrite <- has_match_occurs. vm_compute. discriminate.
Defined.

(** ** Nesting of includes and the recursion limit *)

Lemma sub_pieces_ext repl repl' ps :
  (∀ g, Hit g ∈ ps → repl g = repl' g) →
  sub_pieces repl ps = sub_pieces repl' ps.
Proof.
  induction ps as [|[c|g] ps IH]; intros H; cbn [sub_pieces]; [done| |].
  - rewrite IH; [done|]. intros g Hg. apply H. by right.
  - rewrite (H g) by left. rewrite IH; [done|]. intros g' Hg. apply H. by right.
Qed.

Lemma sub_pieces_no_raise repl ps e :
  (∀ g, Hit g ∈ ps → fst (repl g) ≠ Raise e) →
  fst (sub_pieces repl ps) ≠ Raise e.
Proof.
  induction ps as [|[c|g] ps IH]; intros H; cbn [sub_pieces]; [done| |].
  - assert (IH' : fst (sub_pieces repl ps) ≠ Raise e).
    { apply IH. intros g Hg. apply H. by right. }
    destruct (sub_pieces repl ps) as [[r|e'] out]; simpl in *; done.
  - assert (IH' : fst (sub_pieces repl ps) ≠ Raise e).
    { apply IH. intros g' Hg. apply H. by right. }
    pose proof (H g ltac:(left)) as Hg.
    destruct (repl g) as [[r|e'] out]; simpl in *; [|done].
    destruct (sub_pieces repl ps) as [[r'|e'] out']; simpl in *; done.
Qed.

Lemma includes_of_hit content g :
  Hit g ∈ pieces include_pattern content →
  default [] (g !! 1) ∈ includes_of content.
Proof.
  intros H. unfold includes_of. apply list_elem_of_omap. by exists (Hit g).
Qed.

Lemma nested_within_hit st d content g :
  nested_within st (S d) content = true →
  Hit g ∈ pieces include_pattern content →
  match layouts st !! default [] (g !! 1) with
  | Some (File data) => nested_within st d data = true
  | _ => True
  end.
Proof.
  cbn [nested_within]. rewrite forallb_forall. intros H Hg.
  apply includes_of_hit, list_elem_of_In, H in Hg.
  by destruct (layouts st !! default [] (g !! 1)) as [[]|].
Qed.

(** ** Failures of one file *)


(** The handler of the loop: the exception is printed, the tree and the
    list of built pages stay as they were. *)
Lemma visit_raise limit st tr pages root file e out :
  endswith file (text ".html") = true →
  process_file limit st tr pages (root ++ [file]) = (Raise e, out) →
  visit limit st (tr, pages) (root, file)
  = (Ok (tr, pages), out ++ [ErrorProcessing (root ++ [file]) e]).
Proof. intros Hext H. unfold visit. by rewrite Hext, H. Qed.

Lemma process_file_raise limit st tr pages src_path e :
  fst (build_page limit st src_path) = Raise e →
  process_file limit st tr pages src_path
  = (Raise e, snd (build_page limit st src_path)).
Proof.
  unfold process_file.
  destruct (build_page limit st src_path) as [[r|e'] out]; simpl; [done|].
  by intros [= ->].
Qed.

(** C1, as amended.  [process_includes] has no depth guard of its own and
    no [TemplateCycleError].  When the includes below a text nest less than
    [d] deep, the expansion gives the same result under every recursion
    limit of the interpreter from [d] on, and that result is not a
    [RecursionError].  An exception that leaves [build_page] is caught by the
    handler of the loop in [build]: the file is reported, the output tree and
    the list of built pages stay as they were, and the walk goes on. *)
Theorem process_includes_bounded (st : site) (d : nat) (content : str) :
  nested_within st d content = true →
  (∀ limit, d ≤ limit →
     process_includes limit st content = process_includes d st content)
  ∧ fst (process_includes d st content) ≠ Raise RecursionError
  ∧ (∀ limit tr pages root file e,
       endswith file (text ".html") = true →
       fst (build_page limit st (root ++ [file])) = Raise e →
       visit limit st (tr, pages) (root, file)
       = (Ok (tr, pages),
          snd (build_page limit st (root ++ [file]))
            ++ [ErrorProcessing (root ++ [file]) e])).
Proof.
  intros Hn. apply and_assoc. split.
  - revert content Hn. induction d as [|d IH]; intros content Hn; [done|].
    split.
    + intros [|limit] Hle; [lia|]. rewrite !process_includes_S.
      apply sub_pieces_ext. intros g Hg.
      pose proof (nested_within_hit _ _ _ _ Hn Hg) as Hd.
      destruct (layouts st !! default [] (g !! 1)) as [[data| |]|]; try done.
      cbn [read_text]. rewrite !bind_ret_l. apply IH; [done|lia].
    + rewrite process_includes_S. apply sub_pieces_no_raise. intros g Hg.
      pose proof (nested_within_hit _ _ _ _ Hn Hg) as Hd.
      destruct (layouts st !! default [] (g !! 1)) as [[data| |]|]; try done.
      cbn [read_text]. rewrite bind_ret_l. by apply IH.
  - intros limit tr pages root file e Hext Hb.
    apply visit_raise; [done|]. by apply process_file_raise.
Qed.

Lemma process_includes_bounded_witness :
  let content := text "<template include='header.html'><p>Hi</p>" in
  (∀ limit, 3 ≤ limit →
     process_includes limit nested_site content
     = process_includes 3 nested_site content)
  ∧ fst (process_includes 3 nested_site content) ≠ Raise RecursionError.
Proof.
  destruct (process_includes_bounded nested_site 3
              (text "<template include='header.html'><p>Hi</p>"))
    as (H1 & H2 & _); [vm_compute; reflexivity|].
  by split.
Defined.

Example nested_site_expansion :
  process_includes 3 nested_site (text "<template include='header.html'><p>Hi</p>")
  = (Ok (text "<header><img src='logo.png'></header><p>Hi</p>"), []).
Proof. vm_compute. reflexivity. Qed.

Lemma self_doc_pieces :
  pieces include_pattern self_doc = [Hit (<[1 := text "loop.html"]> ∅)].
Proof. vm_compute. reflexivity. Qed.

Lemma process_includes_self_loop limit :
  fst (process_includes limit self_site self_doc) = Raise RecursionError.
Proof.
  induction limit as [|limit IH]; [done|].
  rewrite process_includes_S, self_doc_pieces. cbn [sub_pieces].
  apply bind_raise.
  rewrite lookup_insert_eq. cbn [from_option id].
  change (layouts self_site !! text "loop.html") with (Some (File self_doc)).
  cbn [read_text]. by rewrite bind_ret_l.
Qed.

(** C1, counterexample.  A layout file that includes itself: the expansion
    does not end within 64 nested calls, nor within any other number, and the
    failure is the interpreter's [RecursionError]. *)
Lemma process_includes_self_reference :
  fst (process_includes 64 self_site self_doc) = Raise RecursionError
  ∧ (∀ limit,
       fst (process_includes limit self_site self_doc) = Raise RecursionError).
Proof. split; [|intros limit]; apply process_includes_self_loop. Qed.

Example self_site_build :
  ∃ tr,
    build 64 self_site
    = (Ok tr,
       [BuildingSite;
        ErrorProcessing [text "content"; text "about.html"] RecursionError;
        Generated [text "index.html"];
        GeneratedSitemap; BuildComplete])
    ∧ tr !! [text "index.html"] = Some (text "<h1>Home</h1>")
    ∧ tr !! [text "about"; text "index.html"] = None.
Proof. eexists. split; [vm_compute; reflexivity|]. split; vm_compute; reflexivity. Qed.

(** ** The walk over the content files *)

Lemma process_file_ok limit st tr pages src_path acc out :
  process_file limit st tr pages src_path = (Ok acc, out) →
  ∃ p html meta,
    fst (build_page limit st src_path) = Ok (p, html, meta)
    ∧ acc = (<[p := html]> tr, pages ++ [(p, meta)]).
Proof.
  unfold process_file.
  destruct (build_page limit st src_path) as [[[[p html] meta]|e] out0];
    cbn [bind]; [|done].
  destruct (mkdir_parents tr (removelast p)) as [[]|e]; cbn [lift bind]; [|done].
  unfold write_text. destruct (is_dir tr p); cbn [lift bind]; [done|].
  intros [= <- _]. by exists p, html, meta.
Qed.


Lemma visit_total limit st acc entry :
  ∃ acc' out, visit limit st acc entry = (Ok acc', out).
Proof.
  destruct acc as [tr pages], entry as [root file]. unfold visit.
  destruct (endswith file (text ".html")); [|by eexists _, _].
  destruct (process_file limit st tr pages (root ++ [file])) as [[acc|e] out0];
    cbn [catch bind print ret]; by eexists _, _.
Qed.

(** The walk visits every entry: no exception leaves the loop. *)
Lemma walk_pages_total limit st acc entries :
  ∃ acc' out, walk_pages limit st acc entries = (Ok acc', out).
Proof.
  revert acc. induction entries as [|entry entries IH]; intros acc;
    cbn [walk_pages]; [by eexists _, _|].
  destruct (visit_total limit st acc entry) as (acc1 & out1 & ->).
  destruct (IH acc1) as (acc2 & out2 & H). cbn [bind]. rewrite H.
  by eexists _, _.
Qed.






(** What [build] writes once the walk is over, for a site with no assets
    and no extra directory. *)
Lemma build_after_walk limit st tr pages out :
  walk_pages limit st (∅, []) (walk st) = (Ok (tr, pages), out) →
  copy_assets st = None → copy_extra st = None →
  is_dir tr [text "sitemap.xml"] = false →
  build limit st
  = (Ok (<[[text "sitemap.xml"] := join [nl] (sitemap_lines st pages)]> tr),
     BuildingSite :: out ++ [GeneratedSitemap; BuildComplete]).
Proof.
  intros Hw Ha He Hd. unfold build. cbn [print bind]. rewrite Hw. cbn [bind].
  rewrite Ha, He. cbn [copy_static ret bind].
  unfold generate_sitemap, write_text. rewrite Hd. cbn [lift bind ret print].
  by rewrite !app_nil_r.
Qed.


Example mixed_site_build :
  ∃ tr,
    build 64 mixed_site
    = (Ok tr,
       [BuildingSite;
        Generated [text "index.html"];
        ErrorProcessing [text "content"; text "broken.html"] UnicodeDecodeError;
        Generated [text "blog"; text "post1"; text "index.html"];
        GeneratedSitemap; BuildComplete])
    ∧ tr !! [text "index.html"] = Some (text "<h1>Home</h1>")
    ∧ tr !! [text "blog"; text "post1"; text "index.html"]
      = Some (text "<p>First post</p>")
    ∧ tr !! [text "sitemap.xml"]
      = Some (join [nl] (sitemap_lines mixed_site
                 [([text "index.html"], ∅);
                  ([text "blog"; text "post1"; text "index.html"], ∅)])).
Proof.
  eexists. split; [vm_compute; reflexivity|].
  split; [vm_compute; reflexivity|]. split; vm_compute; reflexivity.
Qed.

(** ** Output paths *)

Lemma relative_to_app base p : relative_to (base ++ p) base = Ok p.
Proof.
  induction base as [|b base IH]; simpl; [by destruct p|].
  by rewrite bool_decide_eq_true_2.
Qed.

Lemma name_snoc dir nm : name (dir ++ [nm]) = nm.
Proof. unfold name. by rewrite last_snoc. Qed.

Lemma rfind_dot_html stem :
  rfind_dot (stem ++ text ".html") = Some (length stem).
Proof.
  induction stem as [|c stem IH]; [done|].
  cbn [app rfind_dot length]. by rewrite IH.
Qed.

Lemma with_suffix_empty_html dir stem :
  stem ≠ [] →
  with_suffix_empty (dir ++ [stem ++ text ".html"]) = Ok (dir ++ [stem]).
Proof.
  intros Hne. unfold with_suffix_empty, suffix. rewrite name_snoc.
  destruct (stem ++ text ".html") as [|c nm] eqn:E; [by destruct stem|].
  rewrite <- E. rewrite rfind_dot_html.
  rewrite bool_decide_eq_true_2.
  - rewrite removelast_last, length_drop, length_app.
    change (length (text ".html")) with 5.
    do 3 f_equal. apply take_app_length'. lia.
  - rewrite length_app. change (length (text ".html")) with 5.
    destruct stem; [done|]. simpl. lia.
Qed.

Lemma build_page_output_path limit st file_path p html meta :
  fst (build_page limit st file_path) = Ok (p, html, meta) →
  output_path st file_path = Ok p.
Proof.
  unfold build_page.
  destruct (read_text (files st !! file_path)) as [[raw|e] out0]; cbn [bind]; [|done].
  destruct (parse_frontmatter raw) as [meta0 body].
  destruct (render limit st file_path meta0 body) as [[[pass2 meta1]|e] out1];
    cbn [bind]; [|done].
  destruct (output_path st file_path) as [q|e]; cbn [lift bind ret fst]; [|done].
  by intros [= -> _ _].
Qed.

(** C3.  Below the content directory, a file named [index.html] keeps its
    relative path, and a file [dir/name.html] with any other, non-empty
    [name] maps to [dir/name/index.html]; this is the path [build_page]
    returns.  In particular [content/index.html] gives [index.html],
    [content/blog/index.html] gives [blog/index.html] and
    [content/blog/post1.html] gives [blog/post1/index.html]. *)
Theorem output_path_mapping (st : site) (dir : path) :
  output_path st (content_dir st ++ dir ++ [text "index.html"])
  = Ok (dir ++ [text "index.html"])
  ∧ (∀ stem, stem ≠ [] → stem ≠ text "index" →
       output_path st (content_dir st ++ dir ++ [stem ++ text ".html"])
       = Ok (dir ++ [stem; text "index.html"]))
  ∧ (∀ limit file_path p html meta,
       fst (build_page limit st file_path) = Ok (p, html, meta) →
       output_path st file_path = Ok p)
  ∧ output_path st (content_dir st ++ [text "index.html"])
    = Ok [text "index.html"]
  ∧ output_path st (content_dir st ++ [text "blog"; text "index.html"])
    = Ok [text "blog"; text "index.html"]
  ∧ output_path st (content_dir st ++ [text "blog"; text "post1.html"])
    = Ok [text "blog"; text "post1"; text "index.html"].
Proof.
  assert (Hindex : ∀ d, output_path st (content_dir st ++ d ++ [text "index.html"])
                        = Ok (d ++ [text "index.html"])).
  { intros d. unfold output_path. rewrite relative_to_app, name_snoc.
    by rewrite bool_decide_eq_true_2. }
  assert (Hother : ∀ d stem, stem ≠ [] → stem ≠ text "index" →
            output_path st (content_dir st ++ d ++ [stem ++ text ".html"])
            = Ok (d ++ [stem; text "index.html"])).
  { intros d stem Hne Hidx. unfold output_path.
    rewrite relative_to_app, name_snoc.
    rewrite bool_decide_eq_false_2.
    - rewrite with_suffix_empty_html by done. by rewrite <- app_assoc.
    - intros Heq. apply Hidx.
      change (text "index.html") with (text "index" ++ text ".html") in Heq.
      by apply app_inv_tail in Heq. }
  split; [apply Hindex|]. split; [apply Hother|].
  split; [intros limit fp p html meta; apply build_page_output_path|].
  split; [apply (Hindex [])|]. split; [apply (Hindex [text "blog"])|].
  apply (Hother [text "blog"] (text "post1")); done.
Qed.

(** A file named [.html] has no suffix for [pathlib]: its name is kept. *)
Example output_path_dotfile :
  output_path empty_site [text "content"; text ".html"]
  = Ok [text ".html"; text "index.html"].
Proof. vm_compute. reflexivity. Qed.

Lemma output_path_mapping_witness :
  output_path empty_site [text "content"; text "docs"; text "guide.v2.html"]
  = Ok [text "docs"; text "guide.v2"; text "index.html"].
Proof.
  exact (proj1 (proj2 (output_path_mapping empty_site [text "docs"]))
           (text "guide.v2") ltac:(done) ltac:(done)).
Defined.

(** ** Layout inheritance *)

Lemma render_with_layout limit st file_path meta body layout_name layout_text :
  meta !! text "layout" = Some layout_name →
  layouts st !! layout_name = Some (File layout_text) →
  render limit st file_path meta body
  = (let* inner := process_includes limit st body in
     let meta' := <[text "content" := process_variables inner meta]> meta in
     let* pass1 := process_includes limit st layout_text in
     ret (process_variables pass1 meta', meta')).
Proof.
  intros Hl Hf. unfold render. rewrite Hl, Hf. cbn [read_text].
  rewrite !bind_assoc. apply bind_ext. intros inner.
  by rewrite !bind_ret_l.
Qed.

(** C4.  With the metadata [layout: base.html], [title: Hi], the body
    [Hello] and a layout file [base.html] made of the content variable, a
    dash between spaces and the title variable, the page renders to
    [Hello - Hi]: the body goes through the include pass and the variable
    pass first and is stored under [content], the text of the layout becomes
    the body, and the second include pass and variable pass over it put the
    content and the title in place. *)
Theorem render_layout_example (st : site) (limit : nat) (file_path : path) :
  layouts st !! text "base.html" = Some (File base_layout) →
  let meta' := <[text "content" := text "Hello"]> hi_meta in
  render (S limit) st file_path hi_meta (text "Hello")
  = ret (text "Hello - Hi", meta')
  ∧ process_includes (S limit) st (text "Hello") = ret (text "Hello")
  ∧ process_variables (text "Hello") hi_meta = text "Hello"
  ∧ process_includes (S limit) st base_layout = ret base_layout
  ∧ process_variables base_layout meta' = text "Hello - Hi".
Proof.
  intros Hbase meta'.
  assert (H1 : process_includes (S limit) st (text "Hello") = ret (text "Hello")).
  { apply process_includes_plain. rewrite <- has_match_occurs.
    vm_compute. discriminate. }
  assert (H2 : process_variables (text "Hello") hi_meta = text "Hello")
    by (vm_compute; reflexivity).
  assert (H3 : process_includes (S limit) st base_layout = ret base_layout).
  { apply process_includes_plain. rewrite <- has_match_occurs.
    vm_compute. discriminate. }
  assert (H4 : process_variables base_layout meta' = text "Hello - Hi")
    by (vm_compute; reflexivity).
  split; [|done].
  rewrite (render_with_layout _ _ _ _ _ (text "base.html") base_layout);
    [|vm_compute; reflexivity|done].
  rewrite H1, bind_ret_l. cbn zeta. rewrite H2. fold meta'.
  rewrite H3, bind_ret_l. by rewrite H4.
Qed.

Lemma render_layout_example_witness :
  render 1 layout_site [text "content"; text "hello.html"] hi_meta (text "Hello")
  = ret (text "Hello - Hi", <[text "content" := text "Hello"]> hi_meta).
Proof.
  apply (render_layout_example layout_site 0 [text "content"; text "hello.html"]).
  reflexivity.
Defined.

Example layout_site_page :
  build_page 1 layout_site [text "content"; text "hello.html"]
  = ret ([text "hello"; text "index.html"], text "Hello - Hi",
         <[text "content" := text "Hello"]> hi_meta).
Proof. vm_compute. reflexivity. Qed.

(** ** Sitemap URLs *)

(** C2, at the failing input.  The content file
    [index.html-archive/a.html] is written to
    [index.html-archive/a/index.html], and its sitemap URL is
    [/-archive/a/]: [str.replace] removes every occurrence of [index.html],
    not only the last part of the path. *)
Theorem url_path_strips_every_index_html :
  output_path empty_site [text "content"; text "index.html-archive"; text "a.html"]
  = Ok [text "index.html-archive"; text "a"; text "index.html"]
  ∧ url_path (text "/") [text "index.html-archive"; text "a"; text "index.html"]
    = text "/-archive/a/"
  ∧ url_path (text "/") [text "index.html-archive"; text "a"; text "index.html"]
    ≠ text "/index.html-archive/a/".
Proof. split; [|split]; vm_compute; [reflexivity|reflexivity|discriminate]. Qed.

Example url_path_examples :
  url_path (text "/") [text "index.html"] = text "/"
  ∧ url_path (text "/") [text "blog"; text "index.html"] = text "/blog/"
  ∧ url_path (text "/") [text "blog"; text "post1"; text "index.html"]
    = text "/blog/post1/"
  ∧ url_path (text "\") [text "blog"; text "post1"; text "index.html"]
    = text "/blog/post1/".
Proof. repeat split; vm_compute; reflexivity. Qed.

(** ** The debounced handler *)

(** C8, as amended.  Two events on files, neither with [_output] in its
    path, handled at clock readings [now1] and [now2] with
    [now2 - now1 < 1]: when the first is outside the window of the last
    build and the build it triggers returns, that build is the one call of
    [build], [last_build] becomes [now1], and the second event is ignored
    whatever a build would do then, so the two trigger exactly one
    rebuild. *)
Theorem debounce_one_rebuild (h : handler) (e1 e2 : event) (now1 now2 : float)
    (tr1 : tree) (built2 : res tree) :
  is_directory e1 = false → is_directory e2 = false →
  contains (text "_output") (src_path e1) = false →
  contains (text "_output") (src_path e2) = false →
  (now1 - last_build h <? 1)%float = false →
  (now2 - now1 <? 1)%float = true →
  let s1 := on_any_event now1 (Ok tr1) h e1 in
  let s2 := on_any_event now2 built2 s1.2 e2 in
  s1 = (Ok tt, {| last_build := now1; rebuilds := S (rebuilds h) |})
  ∧ s2 = (Ok tt, s1.2)
  ∧ rebuilds s2.2 = S (rebuilds h).
Proof.
  intros Hd1 Hd2 Ho1 Ho2 Hfirst Hsecond s1 s2.
  assert (H1 : s1 = (Ok tt, {| last_build := now1; rebuilds := S (rebuilds h) |})).
  { unfold s1, on_any_event. by rewrite Hd1, Ho1, Hfirst. }
  assert (H2 : s2 = (Ok tt, s1.2)).
  { unfold s2, on_any_event. rewrite Hd2, Ho2, H1. cbn [snd last_build].
    by rewrite Hsecond. }
  rewrite H2, H1. done.
Qed.

Lemma debounce_one_rebuild_witness :
  let s1 := on_any_event 1700000000.25 (Ok ∅) new_handler page_event in
  let s2 := on_any_event 1700000000.75 (Raise FileNotFoundError) s1.2 page_event in
  s1 = (Ok tt, {| last_build := 1700000000.25; rebuilds := 1 |})
  ∧ s2 = (Ok tt, s1.2)
  ∧ rebuilds s2.2 = 1.
Proof.
  apply (debounce_one_rebuild new_handler page_event page_event
           1700000000.25 1700000000.75 ∅ (Raise FileNotFoundError));
    vm_compute; reflexivity.
Defined.

(** C8, counterexample.  Two events half a second apart, on paths outside
    the output directory, trigger no rebuild when a build was triggered a
    quarter of a second before the first, and none when they are events on
    a directory. *)
Lemma debounce_no_rebuild :
  (let h := (on_any_event 1700000000 (Ok ∅) new_handler page_event).2 in
   rebuilds h = 1
   ∧ (1700000000.75 - 1700000000.25 <? 1)%float = true
   ∧ on_any_event 1700000000.25 (Ok ∅) h page_event = (Ok tt, h)
   ∧ on_any_event 1700000000.75 (Ok ∅) h page_event = (Ok tt, h))
  ∧ (contains (text "_output") (src_path dir_event) = false
     ∧ on_any_event 1700000000.25 (Ok ∅) new_handler dir_event
       = (Ok tt, new_handler)
     ∧ on_any_event 1700000000.75 (Ok ∅) new_handler dir_event
       = (Ok tt, new_handler)
     ∧ rebuilds new_handler = 0).
Proof. repeat split; vm_compute; reflexivity. Qed.

(** When the build raises, the exception leaves the handler and
    [last_build] stays as it was: the call is counted, its time is not
    recorded. *)
Lemma on_any_event_build_raises now ex h e :
  is_directory e = false →
  contains (text "_output") (src_path e) = false →
  (now - last_build h <? 1)%float = false →
  on_any_event now (Raise ex) h e
  = (Raise ex, {| last_build := last_build h; rebuilds := S (rebuilds h) |}).
Proof. intros Hd Ho Hw. unfold on_any_event. by rewrite Hd, Ho, Hw. Qed.

(** ** Variable substitution *)

Section Fail.
Context {A : Type}.
Implicit Types (k : @cont A).

(** A greedy repetition fails when the rest fails at every place it can
    stop. *)
Lemma rep_greedy_none p lo k w s g :
  forallb p w = true →
  match s with c :: _ => p c = false | [] => True end →
  (∀ a b, w = a ++ b → k (b ++ s) g = None) →
  rep_greedy p lo k (w ++ s) g = None.
Proof.
  revert lo. induction w as [|c w IH]; intros lo Hall Hs Hk.
  - pose proof (Hk [] [] eq_refl) as Hk0. simpl in *.
    destruct s as [|c s]; simpl; [by destruct lo|].
    rewrite Hs. by destruct lo.
  - simpl in Hall. apply andb_prop in Hall as [Hc Hall].
    cbn [app rep_greedy]. rewrite Hc.
    rewrite (IH (pred lo)); [| done | done |].
    + pose proof (Hk [] (c :: w) eq_refl) as Hk0. simpl in Hk0.
      rewrite Hk0. by destruct lo.
    + intros a b -> . apply (Hk (c :: a) b). done.
Qed.
End Fail.

Lemma re_sub_pieces pat repl s :
  re_sub pat repl s
  = concat (List.map (fun p => match p with Plain c => [c] | Hit g => repl g end)
                     (pieces pat s)).
Proof. reflexivity. Qed.

Lemma concat_map_plain (repl : groups -> str) pre ps :
  concat (List.map (fun p => match p with Plain c => [c] | Hit g => repl g end)
                   ((Plain <$> pre) ++ ps))
  = pre ++ concat (List.map (fun p => match p with Plain c => [c] | Hit g => repl g end) ps).
Proof.
  induction pre as [|c pre IH]; [done|].
  rewrite fmap_cons. cbn [app List.map concat]. by rewrite IH.
Qed.

Lemma match_here_variable_n n n' s :
  match_here n variable_pattern s = match_here n' variable_pattern s.
Proof. reflexivity. Qed.

Lemma pieces_from_variable_n n n' skip s :
  pieces_from n variable_pattern skip s = pieces_from n' variable_pattern skip s.
Proof.
  revert skip. induction s as [|c s IH]; intros [|m]; cbn [pieces_from];
    rewrite ?(match_here_variable_n n n'); try done.
  destruct (match_here n' variable_pattern (c :: s)) as [[[|len] g]|];
    by rewrite ?IH.
Qed.

(** What [re.sub] does around the first match of a pattern whose matches
    do not depend on the length of the subject. *)
Lemma re_sub_first_match pat repl pre tag post g :
  (∀ n n' skip s, pieces_from n pat skip s = pieces_from n' pat skip s) →
  tag ≠ [] →
  match_here (length (pre ++ tag ++ post)) pat (tag ++ post)
  = Some (length tag, g) →
  (∀ a, occurs_after pat (pre ++ tag ++ post) a → length pre ≤ length a) →
  re_sub pat repl (pre ++ tag ++ post)
  = pre ++ repl g ++ re_sub pat repl post.
Proof.
  intros Hn Hne Hm Hfirst. rewrite !re_sub_pieces. unfold pieces at 1.
  rewrite pieces_from_plain.
  - rewrite concat_map_plain. f_equal.
    destruct tag as [|c tag']; [done|].
    change ((c :: tag') ++ post) with (c :: tag' ++ post) in *.
    cbn [pieces_from]. rewrite Hm. cbn [length List.map concat].
    rewrite pieces_from_skip. f_equal.
    by rewrite (Hn _ (length post)).
  - intros a b -> Hb.
    destruct (match_here _ pat (b ++ tag ++ post)) eqn:Hmb; [exfalso|done].
    assert (Hocc : occurs_after pat ((a ++ b) ++ tag ++ post) a).
    { apply (occurs_after_match _ _ a (b ++ tag ++ post)).
      - by rewrite <- app_assoc.
      - by rewrite Hmb. }
    apply Hfirst in Hocc. rewrite length_app in Hocc.
    destruct b; [done|]. simpl in Hocc. lia.
Qed.

Lemma variable_tag_length ws1 q1 var_name q2 ws2 :
  length (variable_tag ws1 q1 var_name q2 ws2)
  = 21 + length ws1 + length var_name + length ws2.
Proof.
  unfold variable_tag.
  repeat (rewrite ?length_app; cbn [length]).
  change (length (text "<template")) with 9.
  change (length (text "variable=")) with 9.
  change (length (text ">")) with 1. lia.
Qed.

Lemma not_default_after_space c s :
  is_space c = true ∨ c = 62%N →
  strip_prefix (text "default=") (c :: s) = None.
Proof.
  intros Hc. change (text "default=") with (100%N :: text "efault=").
  cbn [strip_prefix]. destruct (N.eqb_spec 100 c) as [<-|]; [|done].
  by destruct Hc.
Qed.

(** The variable pattern matches a directive without a default exactly:
    group 1 is the name, group 2 takes no part. *)
Lemma match_here_variable_tag n ws1 q1 var_name q2 ws2 post :
  ws1 ≠ [] → forallb is_space ws1 = true →
  is_quote q1 = true → is_quote q2 = true →
  forallb (fun c => dot c && negb (is_quote c)) var_name = true →
  forallb is_space ws2 = true →
  match_here n variable_pattern (variable_tag ws1 q1 var_name q2 ws2 ++ post)
  = Some (length (variable_tag ws1 q1 var_name q2 ws2), <[1 := var_name]> ∅).
Proof.
  intros Hne Hws1 Hq1 Hq2 Hname Hws2.
  unfold match_here, variable_pattern, variable_tag.
  repeat (rewrite <- ?app_assoc, <- ?app_comm_cons).
  cbn [bt]. rewrite strip_prefix_app.
  apply rep_greedy_all; [done|destruct ws1; simpl; [done|lia]|done|].
  cbn [bt]. rewrite strip_prefix_app. rewrite Hq1.
  apply rep_lazy_first with (q := is_quote); [done| |].
  { intros c s' Hc. cbn [bt]. by rewrite Hc. }
  cbn [bt]. rewrite Hq2.
  rewrite rep_greedy_none; [|done|done|].
  - apply rep_greedy_all; [done|lia|done|].
    cbn [bt]. rewrite strip_prefix_app.
    f_equal. f_equal.
    + repeat (rewrite ?length_app; cbn [length]).
      change (length (text "<template")) with 9.
      change (length (text "variable=")) with 9.
      change (length (text ">")) with 1. lia.
    + f_equal. apply take_app_length'. rewrite length_app. lia.
  - intros a b Hab. cbn [bt].
    destruct b as [|c b].
    + change ([] ++ text ">" ++ post) with (62%N :: post).
      by rewrite (not_default_after_space 62 post) by (by right).
    + change ((c :: b) ++ text ">" ++ post) with (c :: b ++ text ">" ++ post).
      rewrite not_default_after_space; [done|]. left.
      rewrite Hab, forallb_app in Hws2. apply andb_prop in Hws2 as [_ Hb].
      simpl in Hb. by apply andb_prop in Hb as [Hc _].
Qed.

(** The variable pattern matches a directive with a default exactly:
    group 1 is the name, group 2 the default. *)
Lemma match_here_variable_tag_default n ws1 q1 var_name q2 ws3 q3 default_val
    q4 ws2 post :
  ws1 ≠ [] → forallb is_space ws1 = true →
  is_quote q1 = true → is_quote q2 = true →
  forallb (fun c => dot c && negb (is_quote c)) var_name = true →
  ws3 ≠ [] → forallb is_space ws3 = true →
  is_quote q3 = true → is_quote q4 = true →
  forallb (fun c => dot c && negb (is_quote c)) default_val = true →
  forallb is_space ws2 = true →
  match_here n variable_pattern
    (variable_tag_default ws1 q1 var_name q2 ws3 q3 default_val q4 ws2 ++ post)
  = Some (length (variable_tag_default ws1 q1 var_name q2 ws3 q3 default_val q4 ws2),
          <[2 := default_val]> (<[1 := var_name]> ∅)).
Proof.
  intros Hne Hws1 Hq1 Hq2 Hname Hne3 Hws3 Hq3 Hq4 Hval Hws2.
  unfold match_here, variable_pattern, variable_tag_default.
  repeat (rewrite <- ?app_assoc, <- ?app_comm_cons).
  cbn [bt]. rewrite strip_prefix_app.
  apply rep_greedy_all; [done|destruct ws1; simpl; [done|lia]|done|].
  cbn [bt]. rewrite strip_prefix_app. rewrite Hq1.
  apply rep_lazy_first with (q := is_quote); [done| |].
  { intros c s' Hc. cbn [bt]. by rewrite Hc. }
  cbn [bt]. rewrite Hq2.
  rewrite (rep_greedy_all is_space 1 _ ws3 _ _
             (length (text "<template" ++ ws1 ++ text "variable=" ++ q1 :: var_name
                        ++ q2 :: ws3 ++ text "default=" ++ q3 :: default_val
                        ++ q4 :: ws2 ++ text ">"),
              <[2 := default_val]> (<[1 := var_name]> ∅)));
    [done|done|destruct ws3; simpl; [done|lia]|done|].
  cbn [bt]. rewrite strip_prefix_app. rewrite Hq3.
  apply rep_lazy_first with (q := is_quote); [done| |].
  { intros c s' Hc. cbn [bt]. by rewrite Hc. }
  cbn [bt]. rewrite Hq4.
  apply rep_greedy_all; [done|lia|done|].
  cbn [bt]. rewrite strip_prefix_app.
  f_equal. f_equal.
  - repeat (rewrite ?length_app; cbn [length]).
    change (length (text "<template")) with 9.
    change (length (text "variable=")) with 9.
    change (length (text "default=")) with 8.
    change (length (text ">")) with 1. lia.
  - f_equal.
    + apply take_app_length'. rewrite length_app. lia.
    + f_equal. apply take_app_length'. rewrite length_app. lia.
Qed.

Lemma process_variables_unfold content variables :
  process_variables content variables
  = re_sub variable_pattern
      (fun g => default (default [] (g !! 2)) (variables !! default [] (g !! 1)))
      content.
Proof. reflexivity. Qed.

Lemma process_variables_plain doc variables :
  ¬ occurs variable_pattern doc →
  process_variables doc variables = doc.
Proof.
  intros H. rewrite process_variables_unfold, re_sub_pieces.
  rewrite (pieces_no_match _ _ H).
  rewrite <- (app_nil_r (Plain <$> doc)), concat_map_plain. simpl.
  by rewrite app_nil_r.
Qed.

(** X1.  A text that holds no variable directive is left as it is by
    [process_variables], whatever the metadata. *)
Theorem process_variables_no_directive (doc : str) (variables : metadata) :
  ¬ occurs variable_pattern doc →
  process_variables doc variables = doc.
Proof. apply process_variables_plain. Qed.

Lemma process_variables_no_directive_witness :
  process_variables (text "<h1>Title</h1><template include='nav.html'>")
    {[ text "title" := text "Hi" ]}
  = text "<h1>Title</h1><template include='nav.html'>".
Proof.
  apply process_variables_no_directive.
  rewrite <- has_match_occurs. vm_compute. discriminate.
Defined.

(** X2.  The first variable directive of a text, written without a default,
    is replaced by the value the metadata give to its name, or by the empty
    string when they give none; the text before it stays as it is, the value
    is not scanned again, and the substitution goes on after the
    directive. *)
Theorem process_variables_tag (variables : metadata)
    (pre ws1 : str) (q1 : char) (var_name : str) (q2 : char) (ws2 post : str) :
  let tag := variable_tag ws1 q1 var_name q2 ws2 in
  let s := pre ++ tag ++ post in
  ws1 ≠ [] → forallb is_space ws1 = true →
  is_quote q1 = true → is_quote q2 = true →
  forallb (fun c => dot c && negb (is_quote c)) var_name = true →
  forallb is_space ws2 = true →
  (∀ a, occurs_after variable_pattern s a → length pre ≤ length a) →
  process_variables s variables
  = pre ++ default [] (variables !! var_name)
        ++ process_variables post variables.
Proof.
  intros tag s Hne Hws1 Hq1 Hq2 Hname Hws2 Hfirst.
  rewrite !process_variables_unfold. unfold s.
  rewrite (re_sub_first_match _ _ pre tag post (<[1 := var_name]> ∅)).
  - by rewrite lookup_insert_eq, lookup_insert_ne, lookup_empty.
  - apply pieces_from_variable_n.
  - unfold tag, variable_tag. by destruct ws1.
  - by apply match_here_variable_tag.
  - done.
Qed.

Lemma process_variables_tag_witness :
  process_variables
    (text "<title><template variable='title'></title><p><template variable='author'></p>")
    {[ text "title" := text "Hi <template variable='x'>" ]}
  = text "<title>Hi <template variable='x'></title><p></p>".
Proof.
  rewrite (process_variables_tag _ (text "<title>") (text " ") squote
             (text "title") squote [] (text "</title><p><template variable='author'></p>"));
    try done.
  apply no_match_before_spec. vm_compute. reflexivity.
Defined.

(** X3.  The first variable directive of a text, written with a default, is
    replaced by the value the metadata give to its name, and by the default
    only when they give none. *)
Theorem process_variables_tag_default (variables : metadata)
    (pre ws1 : str) (q1 : char) (var_name : str) (q2 : char) (ws3 : str)
    (q3 : char) (default_val : str) (q4 : char) (ws2 post : str) :
  let tag := variable_tag_default ws1 q1 var_name q2 ws3 q3 default_val q4 ws2 in
  let s := pre ++ tag ++ post in
  ws1 ≠ [] → forallb is_space ws1 = true →
  is_quote q1 = true → is_quote q2 = true →
  forallb (fun c => dot c && negb (is_quote c)) var_name = true →
  ws3 ≠ [] → forallb is_space ws3 = true →
  is_quote q3 = true → is_quote q4 = true →
  forallb (fun c => dot c && negb (is_quote c)) default_val = true →
  forallb is_space ws2 = true →
  (∀ a, occurs_after variable_pattern s a → length pre ≤ length a) →
  process_variables s variables
  = pre ++ default default_val (variables !! var_name)
        ++ process_variables post variables.
Proof.
  intros tag s Hne Hws1 Hq1 Hq2 Hname Hne3 Hws3 Hq3 Hq4 Hval Hws2 Hfirst.
  rewrite !process_variables_unfold. unfold s.
  rewrite (re_sub_first_match _ _ pre tag post
             (<[2 := default_val]> (<[1 := var_name]> ∅))).
  - by rewrite lookup_insert_eq, lookup_insert_ne, lookup_insert_eq.
  - apply pieces_from_variable_n.
  - unfold tag, variable_tag_default. by destruct ws1.
  - by apply match_here_variable_tag_default.
  - done.
Qed.

Lemma process_variables_tag_default_witness :
  process_variables
    (text "<b><template variable='author' default='Anonymous' ></b>")
    {[ text "title" := text "Hi" ]}
  = text "<b>Anonymous</b>".
Proof.
  rewrite (process_variables_tag_default _ (text "<b>") (text " ") squote
             (text "author") squote (text " ") squote (text "Anonymous") squote
             (text " ") (text "</b>"));
    try done.
  apply no_match_before_spec. vm_compute. reflexivity.
Defined.

(** ** Includes of files that exist *)

(** What [process_includes] does around the first include directive of a
    text: the callback runs on its file name, then the rest is expanded. *)
Lemma process_includes_first_tag st limit pre ws1 q1 filename q2 ws2 post :
  let tag := include_tag ws1 q1 filename q2 ws2 in
  let s := pre ++ tag ++ post in
  ws1 ≠ [] → forallb is_space ws1 = true →
  is_quote q1 = true → is_quote q2 = true →
  forallb (fun c => dot c && negb (is_quote c)) filename = true →
  forallb is_space ws2 = true →
  (∀ a, occurs_after include_pattern s a → length pre ≤ length a) →
  process_includes (S limit) st s
  = (let* r :=
       match layouts st !! filename with
       | Some nd =>
           let* included_content := read_text (Some nd) in
           process_includes limit st included_content
       | None =>
           let* _ := print (IncludeNotFound filename) in
           ret []
       end in
     let* rest := process_includes (S limit) st post in
     ret (pre ++ r ++ rest)).
Proof.
  intros tag s Hne Hws1 Hq1 Hq2 Hname Hws2 Hfirst.
  rewrite !process_includes_S. unfold pieces at 1.
  unfold s. rewrite pieces_from_plain.
  - rewrite sub_pieces_app_plain.
    pose proof (match_here_tag (length s) ws1 q1 filename q2 ws2 post
                  Hne Hws1 Hq1 Hq2 Hname Hws2) as Hm.
    fold tag in Hm. fold s.
    destruct tag as [|c tag'] eqn:Htag; [done|].
    change ((c :: tag') ++ post) with (c :: tag' ++ post) in *.
    cbn [pieces_from]. rewrite Hm. cbn [length].
    rewrite pieces_from_skip. cbn [sub_pieces].
    rewrite lookup_insert_eq. cbn [from_option id].
    rewrite (pieces_from_include_n (length s) (length post)).
    fold (pieces include_pattern post).
    rewrite !bind_assoc. apply bind_ext. intros r.
    rewrite bind_assoc. apply bind_ext. intros rest.
    by rewrite bind_ret_l.
  - intros a b -> Hb.
    destruct (match_here _ _ (b ++ tag ++ post)) eqn:Hm; [exfalso|done].
    assert (Hocc : occurs_after include_pattern s a).
    { apply (occurs_after_match _ _ a (b ++ tag ++ post)).
      - unfold s. by rewrite <- app_assoc.
      - unfold s. by rewrite Hm. }
    apply Hfirst in Hocc. rewrite length_app in Hocc.
    destruct b; [done|]. simpl in Hocc. lia.
Qed.

(** X4.  The first include directive of a text, when it names a file of the
    layouts directory, is replaced by the content of that file with its own
    includes expanded, one level deeper; the text before it stays as it is
    and the expansion goes on after the directive. *)
Theorem include_replaced_by_file (st : site) (limit : nat)
    (pre ws1 : str) (q1 : char) (filename : str) (q2 : char) (ws2 post : str)
    (data : str) :
  let tag := include_tag ws1 q1 filename q2 ws2 in
  let s := pre ++ tag ++ post in
  ws1 ≠ [] → forallb is_space ws1 = true →
  is_quote q1 = true → is_quote q2 = true →
  forallb (fun c => dot c && negb (is_quote c)) filename = true →
  forallb is_space ws2 = true →
  layouts st !! filename = Some (File data) →
  (∀ a, occurs_after include_pattern s a → length pre ≤ length a) →
  process_includes (S limit) st s
  = (let* included := process_includes limit st data in
     let* rest := process_includes (S limit) st post in
     ret (pre ++ included ++ rest)).
Proof.
  intros tag s Hne Hws1 Hq1 Hq2 Hname Hws2 Hfile Hfirst.
  unfold s, tag. rewrite process_includes_first_tag by done.
  rewrite Hfile. cbn [read_text]. by rewrite bind_ret_l.
Qed.

Lemma include_replaced_by_file_witness :
  process_includes 3 nested_site
    (text "<body><template include='header.html'><p>Hi</p></body>")
  = (let* included :=
       process_includes 2 nested_site
         (text "<header><template include='logo.html'></header>") in
     let* rest := process_includes 3 nested_site (text "<p>Hi</p></body>") in
     ret (text "<body>" ++ included ++ rest)).
Proof.
  apply (include_replaced_by_file nested_site 2 (text "<body>") (text " ")
           squote (text "header.html") squote [] (text "<p>Hi</p></body>"));
    try done.
  apply no_match_before_spec. vm_compute. reflexivity.
Defined.

(** X5.  The first include directive of a text, when it names something
    that exists but cannot be read as text (a directory, or a file that is
    not valid UTF-8), makes [process_includes] raise the error of the read:
    no warning is printed and nothing is returned. *)
Theorem include_of_unreadable_raises (st : site) (limit : nat)
    (pre ws1 : str) (q1 : char) (filename : str) (q2 : char) (ws2 post : str)
    (nd : node) :
  let tag := include_tag ws1 q1 filename q2 ws2 in
  let s := pre ++ tag ++ post in
  ws1 ≠ [] → forallb is_space ws1 = true →
  is_quote q1 = true → is_quote q2 = true →
  forallb (fun c => dot c && negb (is_quote c)) filename = true →
  forallb is_space ws2 = true →
  layouts st !! filename = Some nd →
  (∀ data, nd ≠ File data) →
  (∀ a, occurs_after include_pattern s a → length pre ≤ length a) →
  process_includes (S limit) st s
  = (Raise (match nd with Dir => IsADirectoryError | _ => UnicodeDecodeError end),
     []).
Proof.
  intros tag s Hne Hws1 Hq1 Hq2 Hname Hws2 Hnd Hnofile Hfirst.
  unfold s, tag. rewrite process_includes_first_tag by done.
  rewrite Hnd. destruct nd as [data| |]; [by destruct (Hnofile data)|done|done].
Qed.

Lemma include_of_unreadable_raises_witness :
  process_includes 1 dir_site (text "<p><template include=''></p>")
  = (Raise IsADirectoryError, []).
Proof.
  apply (include_of_unreadable_raises dir_site 0 (text "<p>") (text " ")
           squote [] squote [] (text "</p>") Dir); try done.
  apply no_match_before_spec. vm_compute. reflexivity.
Defined.

(** ** Front matter that is there *)

Section Back.
Context {A : Type}.
Implicit Types (k : @cont A).

(** A greedy repetition gives back what it has to: when the rest fails at
    every place after [c] and succeeds at [c], the repetition stops before
    [c]. *)
Lemma rep_greedy_back p k w c v s g a :
  forallb p w = true → p c = true → forallb p v = true →
  match s with d :: _ => p d = false | [] => True end →
  (∀ x y, v = x ++ y → k (y ++ s) g = None) →
  k (c :: v ++ s) g = Some a →
  rep_greedy p 0 k (w ++ c :: v ++ s) g = Some a.
Proof.
  intros Hw Hc Hv Hs Hfail Hk. induction w as [|d w IH].
  - cbn [app rep_greedy]. rewrite Hc.
    by rewrite (rep_greedy_none p _ k v s g Hv Hs Hfail).
  - simpl in Hw. apply andb_prop in Hw as [Hd Hw].
    cbn [app rep_greedy]. rewrite Hd. cbn [pred]. by rewrite (IH Hw).
Qed.

(** A lazy repetition stops at the first place where the rest matches. *)
Lemma rep_lazy_stops p k x s g a :
  forallb p x = true →
  (∀ y z, x = y ++ z → z ≠ [] → k (z ++ s) g = None) →
  k s g = Some a →
  rep_lazy p 0 k (x ++ s) g = Some a.
Proof.
  intros Hall Hfail Hk. induction x as [|c x IH].
  - simpl. destruct s; simpl; by rewrite Hk.
  - simpl in Hall. apply andb_prop in Hall as [Hc Hall].
    cbn [app rep_lazy]. pose proof (Hfail [] (c :: x) eq_refl ltac:(done)) as H0.
    cbn [app] in H0. rewrite H0, Hc. cbn [pred]. apply IH; [done|].
    intros y z -> Hz. by apply (Hfail (c :: y) z).
Qed.
End Back.

Lemma not_nl_not_space c : is_space c = false → (nl =? c)%N = false.
Proof.
  intros Hc. destruct (N.eqb_spec nl c) as [<-|]; [|done]. done.
Qed.

Lemma lines_cons_head c s :
  (c =? nl)%N = false →
  ∃ l ls, lines s = l :: ls ∧ lines (c :: s) = (c :: l) :: ls.
Proof.
  intros Hc. destruct (lines_cons s) as (l & ls & Hl).
  exists l, ls. split; [done|]. simpl. by rewrite Hc, Hl.
Qed.

(** Where the closing part matches, the line that begins there is a
    delimiter line. *)
Lemma closing_needs_delimiter {A} n (k : @cont A) b rest g a :
  bt n closing_pattern k (b ++ rest) g = Some a →
  b ≠ [] →
  ∃ b', b = nl :: b' ∧
        ∃ d ls, lines (b' ++ rest) = d :: ls ∧ is_delimiter d = true.
Proof.
  intros H Hb. apply bt_sound in H as (x & r & g' & Hs & Hd & _).
  unfold closing_pattern in Hd. cbn [den] in Hd.
  destruct Hd as (xL & x2 & -> & -> & w & x4 & -> & [_ Hw]
                  & xn & x6 & -> & -> & _).
  destruct b as [|c b']; [done|].
  rewrite <- !app_assoc, <- !app_comm_cons in Hs.
  change ([] ++ x6 ++ r) with (x6 ++ r) in Hs.
  assert (Hc : c = nl) by congruence.
  assert (Hs' : b' ++ rest = text "---" ++ w ++ nl :: x6 ++ r) by congruence.
  exists b'. split; [by rewrite Hc|]. rewrite Hs'.
  destruct (lines_head_dashes w Hw) as (d & ls & Hl & Hdel).
  exists d. eexists. split; [|done].
  rewrite (app_assoc (text "---") w), lines_app_nl, Hl. done.
Qed.

Lemma rep_greedy_to_end {A} p (k : @cont A) w g a :
  forallb p w = true → k [] g = Some a →
  rep_greedy p 0 k w g = Some a.
Proof.
  intros Hw Hk. rewrite <- (app_nil_r w).
  apply rep_greedy_all; [done|lia|done|done].
Qed.

Lemma forallb_dot_all s : forallb dot_all s = true.
Proof. by induction s. Qed.

(** The front-matter pattern on a text with a block of metadata: group 1
    is the metadata text, group 2 the body. *)
Lemma frontmatter_match w1 c fm w2 body :
  forallb is_space w1 = true →
  is_space c = false →
  forallb (fun l => negb (is_delimiter l)) (lines (c :: fm)) = true →
  forallb is_space w2 = true →
  match body with d :: _ => is_space d = false | [] => True end →
  let s := text "---" ++ w1 ++ nl :: (c :: fm) ++ nl :: text "---" ++ w2
             ++ nl :: body in
  match_here (length s) frontmatter_pattern s
  = Some (length s, <[2 := body]> (<[1 := c :: fm]> ∅)).
Proof.
  intros Hw1 Hc Hfm Hw2 Hbody.
  remember (c :: fm) as F eqn:HF. intros s.
  unfold match_here.
  change frontmatter_pattern
    with (Bol · Lit (text "---") · Rep true 0 is_space · Lit [nl]
          · Grp 1 (Rep false 0 dot_all) · closing_pattern)%re.
  cbn [bt]. rewrite Nat.eqb_refl. unfold s at 1. rewrite strip_prefix_app.
  apply (rep_greedy_back is_space _ w1 nl []);
    [done|done|done|by rewrite HF| |].
  { intros x y Hxy. symmetry in Hxy. apply app_eq_nil in Hxy as [_ ->].
    rewrite HF. cbn [app bt strip_prefix]. by rewrite (not_nl_not_space c Hc). }
  cbn [bt strip_prefix]. rewrite N.eqb_refl. rewrite !app_nil_l.
  apply rep_lazy_stops; [apply forallb_dot_all| |].
  { intros y z Hyz Hz.
    destruct (bt _ closing_pattern _ _ _) eqn:Hcl; [exfalso|done].
    apply closing_needs_delimiter in Hcl as (b' & -> & d & ls & Hl & Hd); [|done].
    rewrite lines_app_nl in Hl.
    destruct (lines_cons b') as (l0 & ls0 & Hb'). rewrite Hb' in Hl.
    injection Hl as -> _.
    rewrite Hyz, lines_app_nl, Hb', forallb_app in Hfm.
    apply andb_prop in Hfm as [_ Hfm]. simpl in Hfm. by rewrite Hd in Hfm. }
  unfold closing_pattern. cbn [bt].
  change (nl :: text "---" ++ w2 ++ nl :: body)
    with ((nl :: text "---") ++ w2 ++ nl :: body).
  rewrite strip_prefix_app.
  apply (rep_greedy_back is_space _ w2 nl []); [done|done|done|done| |].
  { intros x y Hxy. symmetry in Hxy. apply app_eq_nil in Hxy as [_ ->].
    cbn [app bt strip_prefix]. destruct body as [|d body]; [done|].
    by rewrite (not_nl_not_space d Hbody). }
  cbn [bt strip_prefix]. rewrite N.eqb_refl. rewrite !app_nil_l.
  apply rep_greedy_to_end; [apply forallb_dot_all|].
  cbn [bt]. do 3 f_equal.
  - apply firstn_all2. simpl. lia.
  - f_equal. apply take_app_length'.
    rewrite length_app. lia.
Qed.

Lemma parse_frontmatter_block_eq w1 c fm w2 body :
  forallb is_space w1 = true →
  is_space c = false →
  forallb (fun l => negb (is_delimiter l)) (lines (c :: fm)) = true →
  forallb is_space w2 = true →
  match body with d :: _ => is_space d = false | [] => True end →
  parse_frontmatter
    (text "---" ++ w1 ++ nl :: (c :: fm) ++ nl :: text "---" ++ w2 ++ nl :: body)
  = (parse_lines (c :: fm), body).
Proof.
  intros Hw1 Hc Hfm Hw2 Hbody. unfold parse_frontmatter, re_match.
  rewrite (frontmatter_match w1 c fm w2 body) by done.
  cbn [fmap option_fmap option_map snd].
  by rewrite lookup_insert_eq, lookup_insert_ne, lookup_insert_eq.
Qed.

(** Without PyYAML, [parse_frontmatter_with] is [parse_frontmatter]. *)
Lemma parse_frontmatter_with_None {V} content :
  parse_frontmatter_with (V := V) None content
  = ret (Dict (parse_frontmatter content).1, (parse_frontmatter content).2).
Proof.
  unfold parse_frontmatter_with, parse_frontmatter.
  by destruct (re_match frontmatter_pattern content).
Qed.

Lemma parse_frontmatter_with_match {V} (yaml : option (str → loaded V))
    w1 c fm w2 body :
  forallb is_space w1 = true →
  is_space c = false →
  forallb (fun l => negb (is_delimiter l)) (lines (c :: fm)) = true →
  forallb is_space w2 = true →
  match body with d :: _ => is_space d = false | [] => True end →
  parse_frontmatter_with yaml
    (text "---" ++ w1 ++ nl :: (c :: fm) ++ nl :: text "---" ++ w2 ++ nl :: body)
  = (let* md := load_metadata yaml (c :: fm) in ret (md, body)).
Proof.
  intros Hw1 Hc Hfm Hw2 Hbody. unfold parse_frontmatter_with, re_match.
  rewrite (frontmatter_match w1 c fm w2 body) by done.
  cbn [fmap option_fmap option_map snd].
  by rewrite lookup_insert_eq, lookup_insert_ne, lookup_insert_eq.
Qed.

(** X6.  A text that opens with a delimiter line, goes on with metadata
    lines of which the first starts with something else than white space
    and none is a delimiter line, then has a closing delimiter line and a
    body that is empty or starts with something else than white space, is
    split there, with PyYAML or without: the text between the delimiters,
    and nothing else, is what goes to [yaml.safe_load] or to the line
    parser, and the body is what follows the closing delimiter and the
    white space after it, blank lines included.  Without PyYAML the
    metadata are those of the line parser on that text. *)
Theorem parse_frontmatter_block {V : Type} (yaml : option (str → loaded V))
    (w1 : str) (c : char) (fm w2 body : str) :
  forallb is_space w1 = true →
  is_space c = false →
  forallb (fun l => negb (is_delimiter l)) (lines (c :: fm)) = true →
  forallb is_space w2 = true →
  match body with d :: _ => is_space d = false | [] => True end →
  parse_frontmatter_with yaml
    (text "---" ++ w1 ++ nl :: (c :: fm) ++ nl :: text "---" ++ w2 ++ nl :: body)
  = (let* md := load_metadata yaml (c :: fm) in ret (md, body))
  ∧ parse_frontmatter_with (V := V) None
      (text "---" ++ w1 ++ nl :: (c :: fm) ++ nl :: text "---" ++ w2 ++ nl :: body)
    = ret (Dict (parse_lines (c :: fm)), body).
Proof.
  intros Hw1 Hc Hfm Hw2 Hbody.
  split; by rewrite parse_frontmatter_with_match.
Qed.

(** The front matter of the example is no YAML: with PyYAML the page gets
    the empty dictionary and a warning, without it the key [title]. *)
Lemma parse_frontmatter_block_witness :
  parse_frontmatter_with
    (Some (fun _ : str =>
             YAMLError (V := unit) (text "could not find expected ':'")))
    (text "---
title: Hi
draft

---


Hello
")
  = (Ok (Dict ∅, text "Hello
"), [YamlParseError (text "could not find expected ':'")])
  ∧ parse_frontmatter_with (V := unit) None (text "---
title: Hi
draft

---


Hello
")
    = ret (Dict (parse_lines (text "title: Hi
draft
")), text "Hello
").
Proof.
  exact (parse_frontmatter_block
           (Some (fun _ : str =>
                    YAMLError (V := unit) (text "could not find expected ':'")))
           [] 116%N (text "itle: Hi
draft
") [nl; nl] (text "Hello
") eq_refl eq_refl eq_refl eq_refl eq_refl).
Defined.

(** ** Metadata lines *)

Lemma splitlines_from_line cur l rest :
  forallb (fun c => negb (is_linebreak c)) l = true →
  splitlines_from cur (l ++ rest) = splitlines_from (rev l ++ cur) rest.
Proof.
  revert cur. induction l as [|c l IH]; intros cur Hl; [done|].
  simpl in Hl. apply andb_prop in Hl as [Hc Hl]. apply negb_true_iff in Hc.
  cbn [app splitlines_from]. rewrite Hc, IH by done.
  cbn [rev]. by rewrite <- app_assoc.
Qed.

Lemma splitlines_from_nl cur rest :
  splitlines_from cur (nl :: rest) = rev cur :: splitlines_from [] rest.
Proof. reflexivity. Qed.

Lemma splitlines_join ls :
  ls ≠ [] →
  Forall (fun l => l ≠ [] ∧ forallb (fun c => negb (is_linebreak c)) l = true) ls →
  splitlines (join [nl] ls) = ls.
Proof.
  intros Hne Hall. unfold splitlines.
  induction Hall as [|l ls [Hl Hbr] Hall IH]; [done|].
  destruct ls as [|l' ls].
  - cbn [join]. rewrite <- (app_nil_r l) at 1.
    rewrite splitlines_from_line by done. cbn [splitlines_from].
    rewrite app_nil_r.
    destruct (rev l) eqn:E.
    + apply (f_equal (@rev N)) in E. rewrite rev_involutive in E. done.
    + by rewrite <- E, rev_involutive.
  - change (join [nl] (l :: l' :: ls)) with (l ++ nl :: join [nl] (l' :: ls)).
    rewrite splitlines_from_line by done.
    rewrite splitlines_from_nl, app_nil_r, rev_involutive.
    f_equal. by apply IH.
Qed.

Lemma lines_join ls :
  ls ≠ [] →
  Forall (fun l => forallb dot l = true) ls →
  lines (join [nl] ls) = ls.
Proof.
  intros Hne Hall.
  induction Hall as [|l ls Hl Hall IH]; [done|].
  destruct ls as [|l' ls].
  - by apply lines_one.
  - change (join [nl] (l :: l' :: ls)) with (l ++ nl :: join [nl] (l' :: ls)).
    rewrite lines_app_nl, lines_one by done. cbn [app]. f_equal. by apply IH.
Qed.

Lemma split_colon_app k v :
  forallb (fun c => negb (c =? 58)%N) k = true →
  split_colon (k ++ 58%N :: v) = Some (k, v).
Proof.
  induction k as [|c k IH]; intros Hk; [done|].
  simpl in Hk. apply andb_prop in Hk as [Hc Hk]. apply negb_true_iff in Hc.
  cbn [app split_colon]. by rewrite Hc, IH.
Qed.

Lemma lstrip_length s : length (lstrip s) ≤ length s.
Proof.
  induction s as [|c s IH]; simpl; [done|].
  destruct (is_space c); simpl; lia.
Qed.

Lemma strip_length s : length (strip s) ≤ length s.
Proof.
  unfold strip, rstrip. rewrite length_rev.
  etrans; [apply lstrip_length|]. rewrite length_rev. apply lstrip_length.
Qed.

Lemma strip_fixed_head c s : strip (c :: s) = c :: s → is_space c = false.
Proof.
  intros H. destruct (is_space c) eqn:Hc; [exfalso|done].
  apply (f_equal length) in H. revert H.
  unfold strip, rstrip. cbn [lstrip]. rewrite Hc, length_rev.
  pose proof (lstrip_length (rev (lstrip s))) as H1.
  pose proof (lstrip_length s) as H2.
  rewrite length_rev in H1. simpl. lia.
Qed.

Lemma strip_space_cons v : strip (32%N :: v) = strip v.
Proof. reflexivity. Qed.

Lemma plain_key_spec k :
  plain_key k = true →
  k ≠ []
  ∧ forallb (fun c => negb (c =? 58)%N) k = true
  ∧ forallb (fun c => negb (is_linebreak c)) k = true
  ∧ strip k = k.
Proof.
  unfold plain_key. destruct k as [|c k]; [done|].
  intros [Hall Hs]%andb_prop. apply bool_decide_eq_true in Hs.
  split; [done|]. split; [|split; [|done]].
  - apply forallb_forall. intros x Hx.
    rewrite forallb_forall in Hall. by destruct (andb_prop _ _ (Hall x Hx)).
  - apply forallb_forall. intros x Hx.
    rewrite forallb_forall in Hall. by destruct (andb_prop _ _ (Hall x Hx)).
Qed.

Lemma plain_value_spec v :
  plain_value v = true →
  forallb (fun c => negb (is_linebreak c)) v = true ∧ strip v = v.
Proof.
  unfold plain_value. intros [Hall Hs]%andb_prop.
  by apply bool_decide_eq_true in Hs.
Qed.

Lemma linebreak_free_dot l :
  forallb (fun c => negb (is_linebreak c)) l = true → forallb dot l = true.
Proof.
  intros H. apply forallb_forall. intros c Hc.
  rewrite forallb_forall in H. specialize (H c Hc).
  unfold dot. destruct (N.eqb_spec c nl) as [->|]; done.
Qed.

Lemma metadata_line_linebreak_free k v :
  forallb (fun c => negb (is_linebreak c)) k = true →
  forallb (fun c => negb (is_linebreak c)) v = true →
  forallb (fun c => negb (is_linebreak c)) (metadata_line (k, v)) = true.
Proof.
  intros Hk Hv. unfold metadata_line. cbn [fst snd].
  rewrite !forallb_app, Hk, Hv. done.
Qed.

(** A line of metadata is no delimiter line: a colon follows the key. *)
Lemma metadata_line_not_delimiter k v :
  forallb (fun c => negb (c =? 58)%N) k = true →
  is_delimiter (metadata_line (k, v)) = false.
Proof.
  intros Hk. unfold is_delimiter, metadata_line. cbn [fst snd].
  destruct (strip_prefix _ _) as [w|] eqn:E; [|done].
  apply strip_prefix_Some in E.
  assert (Hw : ∃ a b, w = a ++ 58%N :: b).
  { destruct k as [|c1 [|c2 [|c3 k]]]; try discriminate E.
    injection E as -> -> -> E. exists k, (32%N :: v). by rewrite <- E. }
  destruct Hw as (a & b & ->). rewrite forallb_app. simpl.
  by rewrite andb_false_r.
Qed.

Lemma parse_lines_unfold fm_text :
  parse_lines fm_text
  = foldl (fun md line =>
             match split_colon line with
             | Some (key, value) => <[strip key := strip value]> md
             | None => md
             end) ∅ (splitlines fm_text).
Proof. reflexivity. Qed.

Lemma foldl_metadata_lines (md : metadata) pairs :
  forallb (fun kv => plain_key kv.1 && plain_value kv.2) pairs = true →
  foldl (fun md line =>
           match split_colon line with
           | Some (key, value) => <[strip key := strip value]> md
           | None => md
           end) md (metadata_line <$> pairs)
  = foldl (fun md kv => <[kv.1 := kv.2]> md) md pairs.
Proof.
  revert md. induction pairs as [|[k v] pairs IH]; intros md Hall; [done|].
  simpl in Hall. apply andb_prop in Hall as [[Hk Hv]%andb_prop Hall].
  apply plain_key_spec in Hk as (_ & Hcolon & _ & Hsk).
  apply plain_value_spec in Hv as [_ Hsv].
  rewrite fmap_cons. cbn [foldl]. unfold metadata_line at 1. cbn [fst snd].
  change (text ": " ++ v) with (58%N :: 32%N :: v).
  rewrite split_colon_app by done. rewrite strip_space_cons, Hsk, Hsv.
  by apply IH.
Qed.

Lemma foldl_insert_list_to_map (pairs : list (str * str)) :
  foldl (fun (md : metadata) kv => <[kv.1 := kv.2]> md) ∅ pairs
  = list_to_map (reverse pairs).
Proof.
  induction pairs as [|kv pairs IH] using rev_ind; [done|].
  rewrite foldl_app, reverse_app. cbn [foldl]. by rewrite IH.
Qed.

Lemma parse_frontmatter_round_trip pairs body :
  pairs ≠ [] →
  forallb (fun kv => plain_key kv.1 && plain_value kv.2) pairs = true →
  match body with d :: _ => is_space d = false | [] => True end →
  parse_frontmatter (with_frontmatter pairs body)
  = (list_to_map (reverse pairs), body).
Proof.
  intros Hne Hall Hbody.
  assert (Hlines : Forall (fun l => l ≠ []
            ∧ forallb (fun c => negb (is_linebreak c)) l = true)
            (metadata_line <$> pairs)).
  { apply Forall_fmap, Forall_forall. intros [k v] Hin.
    rewrite forallb_forall in Hall.
    apply list_elem_of_In, Hall in Hin. cbn [fst snd] in Hin.
    apply andb_prop in Hin as [Hk Hv].
    apply plain_key_spec in Hk as (Hk0 & _ & Hkb & _).
    apply plain_value_spec in Hv as [Hvb _]. split.
    - unfold metadata_line. cbn [fst]. by destruct k.
    - by apply metadata_line_linebreak_free. }
  assert (Hne' : metadata_line <$> pairs ≠ []) by (by destruct pairs).
  destruct (join [nl] (metadata_line <$> pairs)) as [|c fm] eqn:Hfm.
  { exfalso. destruct pairs as [|[k v] pairs]; [done|].
    rewrite forallb_forall in Hall.
    destruct (andb_prop _ _ (Hall (k, v) ltac:(by left))) as [Hk _].
    apply plain_key_spec in Hk as (Hk0 & _).
    rewrite fmap_cons in Hfm. unfold metadata_line at 1 in Hfm. cbn [fst snd] in Hfm.
    destruct k; [done|]. destruct pairs; discriminate Hfm. }
  assert (Hc : is_space c = false).
  { destruct pairs as [|[k v] pairs]; [done|].
    rewrite forallb_forall in Hall.
    destruct (andb_prop _ _ (Hall (k, v) ltac:(by left))) as [Hk _].
    apply plain_key_spec in Hk as (Hk0 & _ & _ & Hsk).
    rewrite fmap_cons in Hfm. unfold metadata_line at 1 in Hfm. cbn [fst snd] in Hfm.
    destruct k as [|c' k]; [done|]. apply strip_fixed_head in Hsk.
    destruct pairs; injection Hfm as -> _; done. }
  unfold with_frontmatter. rewrite Hfm.
  pose proof (parse_frontmatter_block_eq [] c fm [] body) as Hblock.
  rewrite !app_nil_l in Hblock. rewrite Hblock; try done.
  - f_equal. rewrite <- Hfm, parse_lines_unfold, splitlines_join by done.
    by rewrite foldl_metadata_lines, foldl_insert_list_to_map.
  - rewrite <- Hfm, lines_join; [|done|].
    + apply forallb_forall. intros l Hl.
      apply in_map_iff in Hl as ([k v] & <- & Hin).
      rewrite forallb_forall in Hall.
      destruct (andb_prop _ _ (Hall _ Hin)) as [Hk _].
      apply plain_key_spec in Hk as (_ & Hcolon & _).
      by rewrite metadata_line_not_delimiter.
    + eapply Forall_impl; [exact Hlines|]. intros l [_ Hl].
      by apply linebreak_free_dot.
Qed.

(** X7.  Without PyYAML: writing pairs of plain keys and values as front
    matter, one line per pair, before a body that is empty or starts with
    something else than white space, and parsing the file gives the pairs
    back as the metadata, a later line winning over an earlier one with the
    same key, and the body as it was, with nothing printed. *)
Theorem frontmatter_round_trip {V : Type} (pairs : list (str * str))
    (body : str) :
  pairs ≠ [] →
  forallb (fun kv => plain_key kv.1 && plain_value kv.2) pairs = true →
  match body with d :: _ => is_space d = false | [] => True end →
  parse_frontmatter_with (V := V) None (with_frontmatter pairs body)
  = ret (Dict (list_to_map (reverse pairs)), body).
Proof.
  intros Hne Hall Hbody.
  by rewrite parse_frontmatter_with_None, parse_frontmatter_round_trip.
Qed.

Lemma frontmatter_round_trip_witness :
  parse_frontmatter_with (V := unit) None (text "---
title: My first post
date: 2026-01-31
layout: base.html
title: Hello: world
---
<p>x</p>")
  = ret (Dict (list_to_map (reverse [(text "title", text "My first post");
                                      (text "date", text "2026-01-31");
                                      (text "layout", text "base.html");
                                      (text "title", text "Hello: world")])),
         text "<p>x</p>").
Proof.
  exact (frontmatter_round_trip (V := unit)
           [(text "title", text "My first post");
            (text "date", text "2026-01-31");
            (text "layout", text "base.html");
            (text "title", text "Hello: world")]
           (text "<p>x</p>") ltac:(done) eq_refl eq_refl).
Defined.

(** ** The URLs of the sitemap *)

Lemma startswith_app_sep b c rest old :
  c ∉ old → startswith (b ++ c :: rest) old = true → startswith b old = true.
Proof.
  unfold startswith. revert old.
  induction b as [|x b IH]; intros old Hc.
  - destruct old as [|a old]; [done|]. cbn [app strip_prefix].
    destruct (N.eqb_spec a c) as [->|]; [|done].
    exfalso. apply Hc. by left.
  - destruct old as [|a old]; [done|]. cbn [app strip_prefix].
    destruct (a =? x)%N; [|done]. apply IH. intros H. apply Hc. by right.
Qed.

Lemma contains_cons old x s :
  contains old (x :: s) = startswith (x :: s) old || contains old s.
Proof. reflexivity. Qed.

(** Up to a character that [old] does not contain, a text without [old]
    is copied. *)
Lemma replace_before_sep old new pre c rest :
  contains old pre = false → c ∉ old →
  replace_from 0 old new (pre ++ c :: rest)
  = pre ++ replace_from 0 old new (c :: rest).
Proof.
  intros Hpre Hc. induction pre as [|x pre IH]; [done|].
  rewrite contains_cons in Hpre. apply orb_false_iff in Hpre as [Hx Hpre].
  rewrite <- app_comm_cons. cbn [replace_from]. rewrite app_comm_cons.
  destruct (startswith ((x :: pre) ++ c :: rest) old) eqn:E.
  - apply startswith_app_sep in E; [congruence|done].
  - rewrite <- app_comm_cons. f_equal. by apply IH.
Qed.

Lemma replace_char_absent a b s :
  forallb (fun x => negb (x =? a)%N) s = true →
  replace_from 0 [a] [b] s = s.
Proof.
  induction s as [|c s IH]; [done|]. simpl forallb.
  intros [Hc Hs]%andb_prop. apply negb_true_iff in Hc.
  cbn [replace_from]. unfold startswith. cbn [strip_prefix].
  rewrite N.eqb_sym, Hc. f_equal. by apply IH.
Qed.

Lemma replace_char_gone a b s :
  a ≠ b → a ∉ replace_from 0 [a] [b] s.
Proof.
  intros Hab. induction s as [|c s IH]; [apply not_elem_of_nil|].
  cbn [replace_from]. unfold startswith. cbn [strip_prefix length Nat.sub].
  destruct (N.eqb_spec a c) as [->|Hac]; cbn [app];
    apply not_elem_of_cons; split; done.
Qed.

Lemma contains_char_absent a s :
  a ∉ s → contains [a] s = false.
Proof.
  induction s as [|c s IH]; [done|]. intros [Hc Hs]%not_elem_of_cons.
  rewrite contains_cons. unfold startswith. cbn [strip_prefix].
  destruct (N.eqb_spec a c); [done|]. by apply IH.
Qed.

Lemma startswith_self_app p s : startswith (p ++ s) p = true.
Proof. unfold startswith. by rewrite strip_prefix_app. Qed.

(** X8.  Whatever the path of a page and the separator of the platform,
    its URL in the sitemap begins with a slash and holds no backslash. *)
Theorem url_path_shape (sep : str) (p : path) :
  startswith (url_path sep p) (text "/") = true
  ∧ contains (text "\") (url_path sep p) = false.
Proof.
  unfold url_path.
  set (u := replace _ (text "\") (text "/")).
  assert (Hu : 92%N ∉ u) by (by apply replace_char_gone).
  destruct (startswith u (text "/")) eqn:E.
  - split; [done|]. by apply contains_char_absent.
  - split; [apply startswith_self_app|].
    apply contains_char_absent. change (text "/" ++ u) with (47%N :: u).
    apply not_elem_of_cons. done.
Qed.

Lemma join_snoc sep d c :
  d ≠ [] → join sep (d ++ [c]) = join sep d ++ sep ++ c.
Proof.
  induction d as [|x d IH]; [done|]. intros _.
  destruct d as [|y d]; [done|].
  change (join sep ((x :: y :: d) ++ [c])) with (x ++ sep ++ join sep ((y :: d) ++ [c])).
  rewrite IH by done.
  change (join sep (x :: y :: d)) with (x ++ sep ++ join sep (y :: d)).
  by rewrite <- !app_assoc.
Qed.

Lemma join_slash_concat d :
  d ≠ [] →
  join (text "/") d ++ text "/" = concat ((fun c => c ++ text "/") <$> d).
Proof.
  induction d as [|x d IH]; [done|]. intros _.
  destruct d as [|y d].
  - cbn [join fmap list_fmap concat]. by rewrite app_nil_r.
  - change (join (text "/") (x :: y :: d))
      with (x ++ text "/" ++ join (text "/") (y :: d)).
    rewrite fmap_cons. cbn [concat]. rewrite <- IH by done.
    by rewrite <- !app_assoc.
Qed.

Lemma is_name_spec c :
  is_name c = true →
  c ≠ [] ∧ forallb (fun x => negb (x =? 47)%N && negb (x =? 92)%N) c = true.
Proof. by destruct c. Qed.

Lemma names_no_backslash d :
  forallb is_name d = true →
  forallb (fun x => negb (x =? 92)%N) (join (text "/") d) = true.
Proof.
  induction d as [|x d IH]; [done|]. simpl forallb.
  intros [Hx Hd]%andb_prop. apply is_name_spec in Hx as [_ Hx].
  assert (Hx' : forallb (fun x => negb (x =? 92)%N) x = true).
  { apply forallb_forall. intros a Ha. rewrite forallb_forall in Hx.
    by destruct (andb_prop _ _ (Hx a Ha)). }
  destruct d as [|y d]; [done|].
  change (join (text "/") (x :: y :: d))
    with (x ++ text "/" ++ join (text "/") (y :: d)).
  rewrite !forallb_app, Hx'. cbn [andb].
  apply andb_true_intro. split; [done|]. by apply IH.
Qed.

Lemma names_head d :
  d ≠ [] → forallb is_name d = true →
  ∃ a s, join (text "/") d = a :: s ∧ a ≠ 47%N.
Proof.
  destruct d as [|x d]; [done|]. intros _. simpl forallb.
  intros [Hx _]%andb_prop. apply is_name_spec in Hx as [Hne Hx].
  destruct x as [|a x]; [done|]. simpl in Hx.
  apply andb_prop in Hx as [[Ha _]%andb_prop _].
  apply negb_true_iff, N.eqb_neq in Ha.
  destruct d as [|y d]; [by exists a, x|].
  by exists a, (x ++ text "/" ++ join (text "/") (y :: d)).
Qed.

(** X9.  On a platform whose separator is the slash, the page written to
    [index.html] of a directory has the URL of that directory, with a slash
    after each part, when the path of the directory does not hold the text
    [index.html]. *)
Theorem url_path_of_directory_index (d : path) :
  forallb is_name d = true →
  contains (text "index.html") (path_str (text "/") d) = false →
  url_path (text "/") (d ++ [text "index.html"])
  = text "/" ++ concat ((fun c => c ++ text "/") <$> d).
Proof.
  intros Hnames Hidx.
  destruct (decide (d = [])) as [->|Hne]; [done|].
  destruct (names_head d Hne Hnames) as (a & s & Hds & Ha).
  pose proof (names_no_backslash d Hnames) as Hbs.
  unfold url_path, path_str in *. rewrite join_snoc by done.
  rewrite <- join_slash_concat by done.
  set (ds := join (text "/") d) in *.
  assert (H1 : replace (ds ++ text "/" ++ text "index.html") (text "index.html") []
               = ds ++ text "/").
  { unfold replace. change (text "/" ++ text "index.html")
      with (47%N :: text "index.html").
    rewrite replace_before_sep; [done|done|].
    intros H. apply list_elem_of_In in H. vm_compute in H.
    repeat (destruct H as [H|H]; [discriminate H|]). done. }
  rewrite H1.
  assert (H2 : replace (ds ++ text "/") (text "\") (text "/") = ds ++ text "/").
  { unfold replace. apply (replace_char_absent 92 47).
    rewrite forallb_app, Hbs. reflexivity. }
  rewrite H2, Hds. unfold startswith.
  change (text "/") with [47%N]. cbn [app strip_prefix].
  destruct (N.eqb_spec 47 a) as [<-|]; done.
Qed.

Lemma url_path_of_directory_index_witness :
  url_path (text "/") ([text "blog"; text "2026"; text "post1"] ++ [text "index.html"])
  = text "/" ++ concat ((fun c => c ++ text "/") <$> [text "blog"; text "2026"; text "post1"]).
Proof.
  exact (url_path_of_directory_index [text "blog"; text "2026"; text "post1"]
           eq_refl eq_refl).
Defined.

(** ** The files of the walk and the pages of the sitemap *)

Lemma visit_dom limit st tr pages entry tr' pages' out :
  visit limit st (tr, pages) entry = (Ok (tr', pages'), out) →
  dom tr = list_to_set pages.*1 →
  dom tr' =@{gset path} list_to_set pages'.*1.
Proof.
  destruct entry as [root file]. unfold visit.
  destruct (endswith file (text ".html")).
  - destruct (process_file limit st tr pages (root ++ [file])) as [[acc|e] out0] eqn:H;
      cbn [catch bind print ret].
    + intros [= -> _] Hdom.
      apply process_file_ok in H as (p & html & meta & _ & [= -> ->]).
      rewrite dom_insert_L, fmap_app, list_to_set_app_L, Hdom.
      cbn [fmap list_fmap fst list_to_set].
      rewrite (right_id_L ∅ (∪)). apply (comm_L (∪)).
    + by intros [= <- <- _].
  - by intros [= <- <- _].
Qed.

Lemma walk_pages_dom limit st tr pages entries tr' pages' out :
  walk_pages limit st (tr, pages) entries = (Ok (tr', pages'), out) →
  dom tr = list_to_set pages.*1 →
  dom tr' =@{gset path} list_to_set pages'.*1.
Proof.
  revert tr pages out. induction entries as [|entry entries IH];
    intros tr pages out H Hdom.
  - by injection H as <- <- _.
  - cbn [walk_pages] in H.
    destruct (visit_total limit st (tr, pages) entry) as ([tr1 pages1] & out1 & Hv).
    rewrite Hv in H. cbn [bind] in H.
    destruct (walk_pages limit st (tr1, pages1) entries) as [r out2] eqn:Hw.
    injection H as -> _.
    eapply IH; [done|]. by eapply visit_dom.
Qed.

(** X10.  The walk over the content files ends without an exception, and
    the files it leaves in the output tree are the paths of the pages it
    hands to the sitemap: no file without an entry, no entry without a
    file. *)
Theorem walk_files_are_pages (limit : nat) (st : site)
    (entries : list (path * str)) :
  ∃ tr pages out,
    walk_pages limit st (∅, []) entries = (Ok (tr, pages), out)
    ∧ dom tr =@{gset path} list_to_set pages.*1.
Proof.
  destruct (walk_pages_total limit st (∅, []) entries) as ([tr pages] & out & H).
  exists tr, pages, out. split; [done|].
  eapply walk_pages_dom; [done|]. by rewrite dom_empty_L.
Qed.

(** ** Pages without directives *)

(** X11.  A content file whose first line is no front-matter delimiter
    and which holds no include and no variable directive is built to its
    own text, with empty metadata and nothing printed. *)
Theorem plain_page_unchanged (limit : nat) (st : site) (file_path : path)
    (s : str) (p : path) :
  files st !! file_path = Some (File s) →
  forallb (fun l => negb (is_delimiter l)) (take 1 (lines s)) = true →
  ¬ occurs include_pattern s →
  ¬ occurs variable_pattern s →
  output_path st file_path = Ok p →
  build_page (S limit) st file_path = (Ok (p, s, ∅), []).
Proof.
  intros Hfile Hfirst Hinc Hvar Hout.
  destruct (lines_cons s) as (l & ls & Hl).
  rewrite Hl in Hfirst. cbn [take forallb] in Hfirst.
  rewrite andb_true_r in Hfirst. apply negb_true_iff in Hfirst.
  unfold build_page. rewrite Hfile. cbn [read_text ret bind].
  unfold parse_frontmatter.
  rewrite (frontmatter_no_match_first_line s l ls Hl Hfirst).
  unfold render. rewrite lookup_empty. cbn [ret bind].
  rewrite process_includes_plain by done. cbn [ret bind].
  rewrite process_variables_plain by done.
  rewrite Hout. reflexivity.
Qed.

Lemma plain_page_unchanged_witness :
  build_page 1 mixed_site [text "content"; text "index.html"]
  = (Ok ([text "index.html"], text "<h1>Home</h1>", ∅), []).
Proof.
  apply (plain_page_unchanged 0 mixed_site).
  - vm_compute. reflexivity.
  - vm_compute. reflexivity.
  - rewrite <- has_match_occurs. vm_compute. discriminate.
  - rewrite <- has_match_occurs. vm_compute. discriminate.
  - vm_compute. reflexivity.
Defined.

(** ** Two content files with one output path *)

Lemma existsb_false {A} (f : A → bool) l :
  (∀ x, f x = false) → existsb f l = false.
Proof. intros H. induction l as [|x l IH]; simpl; [done|]. by rewrite H, IH. Qed.

Lemma fst_bind_ok {A B} (m : M A) (f : A → M B) a :
  fst m = Ok a → fst (bind m f) = fst (f a).
Proof.
  destruct m as [[a'|e] out]; cbn [fst]; [|done].
  intros [= ->]. cbn [bind]. by destruct (f a).
Qed.

Lemma fst_catch_ok {A} (m : M A) h a :
  fst m = Ok a → fst (catch m h) = Ok a.
Proof. destruct m as [[a'|e] out]; cbn [fst catch]; done. Qed.

Lemma endswith_app a b : endswith (a ++ b) b = true.
Proof. unfold endswith. rewrite rev_app_distr. apply startswith_self_app. Qed.

(** The first file written to an empty tree. *)
Lemma process_file_first limit st pages src d x html meta :
  fst (build_page limit st src) = Ok (d ++ [x], html, meta) →
  fst (process_file limit st ∅ pages src)
  = Ok ({[d ++ [x] := html]}, pages ++ [(d ++ [x], meta)]).
Proof.
  intros Hb. unfold process_file.
  rewrite (fst_bind_ok _ _ _ Hb).
  rewrite removelast_last.
  assert (Hmk : mkdir_parents ∅ d = Ok tt).
  { unfold mkdir_parents, is_file.
    rewrite existsb_false.
    - rewrite lookup_empty. by rewrite bool_decide_eq_false_2 by (by intros [? ?]).
    - intros k. rewrite lookup_empty. apply bool_decide_eq_false_2. by intros [? ?]. }
  rewrite Hmk. cbn [lift bind].
  unfold write_text, is_dir. rewrite map_to_list_empty.
  rewrite bool_decide_eq_false_2 by (by destruct d).
  reflexivity.
Qed.

(** A file written again to the tree that holds only it. *)
Lemma process_file_again limit st pages src d x old html meta :
  fst (build_page limit st src) = Ok (d ++ [x], html, meta) →
  fst (process_file limit st {[d ++ [x] := old]} pages src)
  = Ok ({[d ++ [x] := html]}, pages ++ [(d ++ [x], meta)]).
Proof.
  intros Hb. unfold process_file.
  rewrite (fst_bind_ok _ _ _ Hb).
  rewrite removelast_last.
  assert (Hshort : ∀ q, length q ≤ length d →
            is_file ({[d ++ [x] := old]} : tree) q = false).
  { intros q Hq. unfold is_file. apply bool_decide_eq_false_2.
    rewrite lookup_singleton_ne; [by intros [? ?]|].
    intros Heq. apply (f_equal length) in Heq.
    rewrite length_app in Heq. simpl in Heq. lia. }
  assert (Hmk : mkdir_parents {[d ++ [x] := old]} d = Ok tt).
  { unfold mkdir_parents. rewrite existsb_false.
    - by rewrite Hshort.
    - intros k. apply Hshort. rewrite length_take. lia. }
  rewrite Hmk. cbn [lift bind].
  unfold write_text, is_dir. rewrite map_to_list_singleton.
  rewrite bool_decide_eq_false_2 by (by destruct d).
  cbn [fmap list_fmap fst existsb].
  rewrite bool_decide_eq_false_2 by (by intros [_ ?]).
  cbn [orb lift bind print ret fst].
  do 2 f_equal. rewrite insert_singleton. by rewrite decide_True.
Qed.

Lemma output_path_html st dir stem :
  stem ≠ [] → stem ≠ text "index" →
  output_path st (content_dir st ++ dir ++ [stem ++ text ".html"])
  = Ok (dir ++ [stem; text "index.html"]).
Proof.
  intros Hne Hidx. unfold output_path.
  rewrite relative_to_app, name_snoc.
  rewrite bool_decide_eq_false_2.
  - rewrite with_suffix_empty_html by done. by rewrite <- app_assoc.
  - intros Heq. apply Hidx.
    change (text "index.html") with (text "index" ++ text ".html") in Heq.
    by apply app_inv_tail in Heq.
Qed.

Lemma output_path_index st dir :
  output_path st (content_dir st ++ dir ++ [text "index.html"])
  = Ok (dir ++ [text "index.html"]).
Proof.
  unfold output_path. rewrite relative_to_app, name_snoc.
  by rewrite bool_decide_eq_true_2.
Qed.

(** X12.  A page [dir/name.html] and a page [dir/name/index.html] have
    the same output path.  When both are built, in the order of the walk,
    the tree holds at that path the text of the second alone, and the page
    list holds the path twice. *)
Theorem same_output_overwrites (limit : nat) (st : site) (dir : path)
    (stem : str) (p1 p2 : path) (html1 html2 : str) (meta1 meta2 : metadata) :
  stem ≠ [] → stem ≠ text "index" →
  fst (build_page limit st (content_dir st ++ dir ++ [stem ++ text ".html"]))
  = Ok (p1, html1, meta1) →
  fst (build_page limit st (content_dir st ++ dir ++ [stem; text "index.html"]))
  = Ok (p2, html2, meta2) →
  p1 = dir ++ [stem; text "index.html"]
  ∧ p2 = p1
  ∧ fst (walk_pages limit st (∅, [])
           [(content_dir st ++ dir, stem ++ text ".html");
            (content_dir st ++ dir ++ [stem], text "index.html")])
    = Ok ({[p1 := html2]}, [(p1, meta1); (p1, meta2)]).
Proof.
  intros Hne Hidx H1 H2.
  pose proof (build_page_output_path _ _ _ _ _ _ H1) as Ho1.
  pose proof (build_page_output_path _ _ _ _ _ _ H2) as Ho2.
  rewrite output_path_html in Ho1 by done.
  assert (HP : dir ++ [stem; text "index.html"]
               = (dir ++ [stem]) ++ [text "index.html"])
    by (by rewrite <- app_assoc).
  rewrite HP, output_path_index in Ho2.
  rewrite HP in Ho1.
  injection Ho1 as <-. injection Ho2 as <-.
  split; [done|]. split; [done|].
  rewrite HP in H2.
  set (P := (dir ++ [stem]) ++ [text "index.html"]) in *.
  assert (Hv1 : fst (visit limit st (∅, [])
                   (content_dir st ++ dir, stem ++ text ".html"))
                = Ok ({[P := html1]}, [(P, meta1)])).
  { unfold visit. rewrite endswith_app. apply fst_catch_ok.
    rewrite <- (app_assoc (content_dir st) dir).
    exact (process_file_first limit st [] _ (dir ++ [stem]) (text "index.html")
             html1 meta1 H1). }
  assert (Hv2 : fst (visit limit st ({[P := html1]}, [(P, meta1)])
                   (content_dir st ++ dir ++ [stem], text "index.html"))
                = Ok ({[P := html2]}, [(P, meta1); (P, meta2)])).
  { unfold visit.
    replace (endswith (text "index.html") (text ".html")) with true
      by (vm_compute; reflexivity).
    apply fst_catch_ok.
    rewrite <- (app_assoc (content_dir st)).
    exact (process_file_again limit st [(P, meta1)] _ (dir ++ [stem])
             (text "index.html") html1 html2 meta2 H2). }
  cbn [walk_pages].
  rewrite (fst_bind_ok _ _ _ Hv1), (fst_bind_ok _ _ _ Hv2).
  reflexivity.
Qed.

Lemma same_output_overwrites_witness :
  [text "about"; text "index.html"] = [] ++ [text "about"; text "index.html"]
  ∧ [text "about"; text "index.html"] = [text "about"; text "index.html"]
  ∧ fst (walk_pages 8 clash_site (∅, [])
           [(content_dir clash_site ++ [], text "about" ++ text ".html");
            (content_dir clash_site ++ [] ++ [text "about"], text "index.html")])
    = Ok ({[ [text "about"; text "index.html"] := text "<p>new</p>" ]},
          [([text "about"; text "index.html"], ∅);
           ([text "about"; text "index.html"], ∅)]).
Proof.
  apply (same_output_overwrites 8 clash_site [] (text "about")
           [text "about"; text "index.html"] [text "about"; text "index.html"]
           (text "<p>old</p>") (text "<p>new</p>") ∅ ∅).
  - done.
  - done.
  - vm_compute. reflexivity.
  - vm_compute. reflexivity.
Defined.

(** ** A burst of events *)

Lemma on_any_event_ignored now built h e :
  ignored e = true → on_any_event now built h e = (Ok tt, h).
Proof.
  unfold ignored, on_any_event. destruct (is_directory e); [done|].
  cbn [orb]. by intros ->.
Qed.

Lemma on_any_event_inside now built h e :
  (now - last_build h <? 1)%float = true →
  on_any_event now built h e = (Ok tt, h).
Proof.
  unfold on_any_event. intros ->.
  destruct (is_directory e); [done|]. by destruct (contains _ _).
Qed.

(** Events that reach no build leave the handler as it is, whatever a
    build would do. *)
Lemma on_events_quiet h events :
  forallb (fun x => ignored x.2 || (x.1.1 - last_build h <? 1)%float) events
  = true →
  on_events h events = (Ok tt, h).
Proof.
  induction events as [|[[now built] e] events IH]; [done|].
  cbn [forallb fst snd on_events]. intros [H Hall]%andb_prop.
  assert (Hstep : on_any_event now built h e = (Ok tt, h)).
  { apply orb_prop in H as [H|H];
      [by apply on_any_event_ignored|by apply on_any_event_inside]. }
  rewrite Hstep. by apply IH.
Qed.

(** X13.  An event on a file outside the output directory, handled at
    [now1] outside the window of the last build and whose build returns,
    followed by any number of events that are each on a directory, on a
    path with [_output] in it, or handled less than one second after
    [now1]: the handler calls [build] once, for the first event, raises
    nothing, and keeps [now1] as the time of its last build, whatever a
    build would do at the later events. *)
Theorem burst_one_rebuild (h : handler) (now1 : float) (tr1 : tree)
    (e1 : event) (rest : list (float * res tree * event)) :
  ignored e1 = false →
  (now1 - last_build h <? 1)%float = false →
  forallb (fun x => ignored x.2 || (x.1.1 - now1 <? 1)%float) rest = true →
  on_events h ((now1, Ok tr1, e1) :: rest)
  = (Ok tt, {| last_build := now1; rebuilds := S (rebuilds h) |}).
Proof.
  intros Hig Hout Hrest. cbn [on_events].
  assert (Hfirst : on_any_event now1 (Ok tr1) h e1
                   = (Ok tt, {| last_build := now1; rebuilds := S (rebuilds h) |})).
  { unfold ignored in Hig. apply orb_false_iff in Hig as [Hd Ho].
    unfold on_any_event. by rewrite Hd, Ho, Hout. }
  rewrite Hfirst. by apply on_events_quiet.
Qed.

Lemma burst_one_rebuild_witness :
  on_events new_handler
    ((1700000000.0%float, Ok ∅, page_event)
       :: [(1700000000.25%float, Raise FileNotFoundError, page_event);
           (1700000000.5%float, Ok ∅, dir_event);
           (1700000007.0%float, Raise FileNotFoundError, notes_event);
           (1700000000.75%float, Ok ∅, page_event)])
  = (Ok tt, {| last_build := 1700000000.0; rebuilds := 1 |}).
Proof.
  apply (burst_one_rebuild new_handler); vm_compute; reflexivity.
Defined.

(** ** The polling loop *)

Lemma SFltb_irrefl f : SpecFloat.SFltb f f = false.
Proof.
  unfold SpecFloat.SFltb, SpecFloat.SFcompare.
  destruct f as [s|s| |s m e]; try done; try (by destruct s).
  assert (He : IntDef.Z.compare e e = Eq) by apply Z.compare_refl.
  assert (Hm : PosDef.Pos.compare_cont Eq m m = Eq)
    by apply Pos.compare_cont_refl.
  rewrite He, Hm. by destruct s.
Qed.

Lemma ltb_irrefl (x : float) : (x <? x)%float = false.
Proof. rewrite ltb_spec. apply SFltb_irrefl. Qed.

Lemma scan_max_watched snap : scan_max (watched snap) = scan_max snap.
Proof.
  unfold scan_max, watched. generalize 0%float.
  induction snap as [|[root mtimes] snap IH]; intros m; [done|].
  cbn [List.filter foldl fst snd].
  destruct (contains (text "_output") root) eqn:E; cbn [negb]; [apply IH|].
  cbn [foldl fst snd]. rewrite E. apply IH.
Qed.

(** Once [last_mtime] is the largest time of the snapshot, or still zero,
    an iteration over that snapshot builds nothing. *)
Lemma poll_settled p snap :
  (last_mtime p =? 0)%float = true ∨ last_mtime p = scan_max snap →
  poll p snap = {| last_mtime := scan_max snap; builds := builds p |}.
Proof.
  intros H. unfold poll.
  destruct (last_mtime p =? 0)%float eqn:E.
  - by rewrite ltb_irrefl.
  - destruct H as [H| ->]; [done|]. by rewrite ltb_irrefl.
Qed.

Lemma polls_settled p snap snaps :
  (last_mtime p =? 0)%float = true ∨ last_mtime p = scan_max snap →
  Forall (fun s => watched s = watched snap) snaps →
  builds (polls p snaps) = builds p
  ∧ (snaps ≠ [] → last_mtime (polls p snaps) = scan_max snap).
Proof.
  intros Hp Hall. revert p Hp. unfold polls.
  induction Hall as [|s snaps Hs Hall IH]; intros p Hp; [done|].
  cbn [foldl].
  assert (Hmax : scan_max s = scan_max snap).
  { by rewrite <- (scan_max_watched s), Hs, scan_max_watched. }
  rewrite <- Hmax in Hp. rewrite (poll_settled p s Hp), Hmax.
  destruct (IH {| last_mtime := scan_max snap; builds := builds p |}) as [Hb Hl];
    [by right|].
  split; [done|]. intros _. destruct snaps as [|s' snaps]; [done|].
  by apply Hl.
Qed.

(** X14.  However many times the loop looks at a site whose files outside
    the roots with [_output] in their name stay as they are, it never
    builds: what a build writes to the output directory does not start
    another build, and the first iteration builds nothing. *)
Theorem polls_unchanged_never_build (snap : snapshot) (snaps : list snapshot) :
  Forall (fun s => watched s = watched snap) snaps →
  builds (polls new_poller snaps) = 0.
Proof.
  intros Hall.
  apply (polls_settled new_poller snap snaps); [by left|done].
Qed.

Lemma polls_unchanged_never_build_witness :
  builds (polls new_poller
            [[(text "/site/content", [1700000000.0%float; 1700000100.5%float])];
             [(text "/site/content", [1700000000.0%float; 1700000100.5%float]);
              (text "/site/_output", [1700000200.0%float])];
             [(text "/site/content", [1700000000.0%float; 1700000100.5%float]);
              (text "/site/_output", [1700000300.0%float]);
              (text "/site/_output/blog", [1700000300.0%float])]])
  = 0.
Proof.
  apply (polls_unchanged_never_build
           [(text "/site/content", [1700000000.0%float; 1700000100.5%float])]).
  repeat constructor.
Defined.

Lemma watched_repeat snap n :
  Forall (fun s => watched s = watched snap) (repeat snap n).
Proof. induction n; simpl; by constructor. Qed.

Lemma polls_app p l1 l2 : polls p (l1 ++ l2) = polls (polls p l1) l2.
Proof. apply foldl_app. Qed.

(** X15.  After at least one iteration over a site whose newest watched
    file has a time other than zero, a later snapshot with a newer file
    makes the loop build exactly once, however long that snapshot then
    stays as it is. *)
Theorem polls_detect_newer_file (snap1 snap2 : snapshot) (n k : nat) :
  (scan_max snap1 =? 0)%float = false →
  (scan_max snap1 <? scan_max snap2)%float = true →
  polls new_poller (repeat snap1 (S n) ++ repeat snap2 (S k))
  = {| last_mtime := scan_max snap2; builds := 1 |}.
Proof.
  intros Hnz Hlt. rewrite polls_app.
  destruct (polls_settled new_poller snap1 (repeat snap1 (S n))) as [Hb Hl];
    [by left|apply watched_repeat|].
  specialize (Hl ltac:(done)).
  destruct (polls new_poller (repeat snap1 (S n))) as [last b].
  cbn [builds last_mtime new_poller] in Hb, Hl. subst last b.
  change (repeat snap2 (S k)) with (snap2 :: repeat snap2 k).
  unfold polls at 1. cbn [foldl]. fold (polls (poll {| last_mtime := scan_max snap1; builds := 0 |} snap2) (repeat snap2 k)).
  assert (Hstep : poll {| last_mtime := scan_max snap1; builds := 0 |} snap2
                  = {| last_mtime := scan_max snap2; builds := 1 |}).
  { unfold poll. cbn [last_mtime builds]. by rewrite Hnz, Hlt. }
  rewrite Hstep.
  destruct (polls_settled {| last_mtime := scan_max snap2; builds := 1 |}
              snap2 (repeat snap2 k)) as [Hb Hl];
    [by right|apply watched_repeat|].
  destruct k as [|k]; [done|]. specialize (Hl ltac:(done)).
  destruct (polls _ (repeat snap2 (S k))) as [last b].
  cbn [builds last_mtime] in Hb, Hl. by subst.
Qed.

Lemma polls_detect_newer_file_witness :
  polls new_poller
    (repeat [(text "/site/content", [1700000000.0%float])] 3
       ++ repeat [(text "/site/content", [1700000000.0%float; 1700000050.0%float])] 2)
  = {| last_mtime :=
         scan_max [(text "/site/content", [1700000000.0%float; 1700000050.0%float])];
       builds := 1 |}.
Proof.
  apply (polls_detect_newer_file
           [(text "/site/content", [1700000000.0%float])]
           [(text "/site/content", [1700000000.0%float; 1700000050.0%float])] 2 1);
    vm_compute; reflexivity.
Defined.

(** ** The sitemap of a finished build *)

(** X16.  For a site none of whose content files opens with a
    front-matter delimiter, so that the metadata of every page are the
    empty dictionary with PyYAML or without: whatever the copies of the
    assets and of the extra files do, a build that ends without an
    exception leaves a [sitemap.xml] at the top of the output tree whose
    text is the sitemap of the pages the walk has built, its lines joined
    by newlines; and with no assets and no extra directory, the build ends
    without an exception unless a page was written below a directory named
    [sitemap.xml]. *)
Theorem build_sitemap_lists_pages (limit : nat) (st : site) :
  no_frontmatter st →
  ∃ tr0 pages out0,
    walk_pages limit st (∅, []) (walk st) = (Ok (tr0, pages), out0)
    ∧ (∀ tr, fst (build limit st) = Ok tr →
         tr !! [text "sitemap.xml"] = Some (join [nl] (sitemap_lines st pages)))
    ∧ (copy_assets st = None → copy_extra st = None →
       is_dir tr0 [text "sitemap.xml"] = false →
       ∃ tr, fst (build limit st) = Ok tr).
Proof.
  intros _.
  destruct (walk_pages_total limit st (∅, []) (walk st)) as ([tr0 pages] & out0 & Hw).
  exists tr0, pages, out0. split; [done|]. split; cycle 1.
  { intros Ha He Hd. rewrite (build_after_walk _ _ _ _ _ Hw Ha He Hd).
    by eexists. }
  intros tr.
  unfold build. cbn [print bind]. rewrite Hw. cbn [bind].
  assert (Hcopy : ∀ cp msg t,
            (∃ e out, copy_static cp msg t = (Raise e, out))
            ∨ (∃ t' out, copy_static cp msg t = (Ok t', out))).
  { intros [f|] msg t; cbn [copy_static]; [|right; by eexists _, _].
    destruct (f t) as [t'|e]; cbn [lift bind print ret];
      [right|left]; by eexists _, _. }
  destruct (Hcopy (copy_assets st) CopiedAssets tr0) as [(e & o & ->)|(t1 & o1 & ->)];
    cbn [bind fst]; [done|].
  destruct (Hcopy (copy_extra st) CopiedExtra t1) as [(e & o & ->)|(t2 & o2 & ->)];
    cbn [bind fst]; [done|].
  unfold generate_sitemap, write_text.
  destruct (is_dir t2 [text "sitemap.xml"]); cbn [lift bind print ret fst]; [done|].
  intros [= <-]. apply lookup_insert_eq.
Qed.

Lemma build_sitemap_lists_pages_witness :
  ∃ tr0 pages out0,
    walk_pages 64 mixed_site (∅, []) (walk mixed_site) = (Ok (tr0, pages), out0)
    ∧ (∀ tr, fst (build 64 mixed_site) = Ok tr →
         tr !! [text "sitemap.xml"]
         = Some (join [nl] (sitemap_lines mixed_site pages)))
    ∧ (copy_assets mixed_site = None → copy_extra mixed_site = None →
       is_dir tr0 [text "sitemap.xml"] = false →
       ∃ tr, fst (build 64 mixed_site) = Ok tr).
Proof.
  apply (build_sitemap_lists_pages 64 mixed_site).
  intros root file s Hin Hfile. unfold mixed_site in *. cbn [walk files] in *.
  repeat (apply elem_of_cons in Hin as [[= -> ->]|Hin]);
    [| | | |by apply elem_of_nil in Hin];
    vm_compute in Hfile; try discriminate Hfile;
    injection Hfile as <-; vm_compute; reflexivity.
Defined.
